(** * Solana transaction balance-change parser: model of [parser.js]

    A shallow embedding of the transfer parser.  JavaScript objects used as
    dictionaries are finite maps keyed by strings, the [Set] of addresses is
    an insertion-ordered list without repetitions, and the asynchronous
    entry point is a small tree of RPC requests ([Run]) that is executed
    against a connection.

    Conventions for JavaScript values:
    - a string is the sequence of the UTF-8 bytes of its text;
    - a field that holds a string when present is an [option string];
      [None] is a missing field ([undefined]; [null] is not told apart
      from it, except for the token balance lists, see [Meta]) and
      [Some ""] the empty string, which JavaScript treats as false;
    - numbers occurring in payloads (lamports, decimals, account indices)
      are integers and are modelled in [Z] (or [nat] for array indices);
    - the floating-point numbers of the language are not modelled: the
      parser only hands the result of [parseFloat] to [isNaN], to a
      division and to the caller, so the number type and these operations
      are parameters ([JSNumbers]);
    - object keys inherited from [Object.prototype] are not modelled. *)

From stdpp Require Import gmap strings list fin_maps pretty.
From Stdlib Require Import Ascii QArith.

Set Warnings "-clear-no-such-hyp".

Open Scope Z_scope.
Open Scope string_scope.

(** ** JavaScript primitives *)

(** Truthiness, the implicit conversion behind [if (x)], [!x], [x && y] and
    [x || y]. *)
Class Truthy (A : Type) := truthy : A → bool.

#[export] Instance string_truthy : Truthy string :=
  λ s, match s with EmptyString => false | String _ _ => true end.

#[export] Instance Z_truthy : Truthy Z :=
  λ n, negb (Z.eqb n 0).

#[export] Instance option_truthy {A} `{Truthy A} : Truthy (option A) :=
  λ o, match o with Some a => truthy a | None => false end.

(** [a || b] on two values of the same type. *)
Definition jsor {A} `{Truthy A} (a b : A) : A := if truthy a then a else b.

(** [a || d] where [a] may be missing and [d] is a literal. *)
Definition jsor_lit {A} `{Truthy A} (a : option A) (d : A) : A :=
  match a with
  | Some x => if truthy x then x else d
  | None => d
  end.

(** The value of [a] when it is truthy: what [if (a) ... a ...] uses. *)
Definition truthy_value {A} `{Truthy A} (a : option A) : option A :=
  match a with
  | Some x => if truthy x then Some x else None
  | None => None
  end.

(** An address as it travels through the parser: a string, or [undefined]
    when the instruction did not carry the field. *)
Abbreviation addr := (option string).

(** Property-key conversion ([obj[a]] applies [ToString] to [a]). *)
Definition key (a : addr) : string :=
  match a with Some s => s | None => "undefined" end.

(** The string held by a field that has been tested to be truthy. *)
Definition strval (a : option string) : string := default "" a.

(** [String(n)] for a safe integer [n] (at most 2^53 in absolute value):
    its decimal digits, with a minus sign when negative.  The lamports of a
    payload are taken to be such an integer; beyond that range a number
    need not be an integer's exact value and [String] shortens it. *)
Definition String_of_number (n : Z) : string := pretty n.

(** The numbers of the language (binary64 values) with the operations the
    parser applies to them: [parseFloat(s)], [isNaN(x)], the quotient
    [x / y], and [Math.pow(10, d)] for an integer [d]. *)
Class JSNumbers := {
  Number : Type;
  parseFloat : string → Number;
  isNaN : Number → bool;
  Number_divide : Number → Number → Number;
  Math_pow10 : Z → Number;
}.

Definition UNKNOWN_MINT : string := "UNKNOWN_MINT".
Definition SOL : string := "SOL".
Definition TOKEN_PROGRAM_ID : string :=
  "TokenkegQfeZyiNwAJbNbGKPFXCWuBvf9Ss623VQ5DA".
Definition MIN_TOKEN_ACCOUNT_DATA_LEN : nat := 64.

(** ** The parsed transaction, as returned by [getParsedTransaction] *)

Record TokenAmount := {
  ta_amount : option string;
  ta_decimals : option Z;
}.

(** [ix.parsed.info]: only the fields the parser reads. *)
Record Info := {
  i_source : addr;
  i_authority : addr;
  i_destination : addr;
  i_newAccount : addr;
  i_account : addr;
  i_owner : addr;
  i_wallet : addr;
  i_mint : option string;
  i_amount : option string;
  i_tokenAmount : option TokenAmount;
  i_lamports : option Z;
}.

Record Parsed := {
  p_type : option string;
  p_info : option Info;
}.

Record Instruction := { parsed : option Parsed }.

Record InnerGroup := { g_instructions : list Instruction }.

(** An entry of [message.accountKeys]: a string or a [{pubkey}] object. *)
Inductive AccountKey :=
  | KeyString (s : string)
  | KeyObject (pubkey : option string).

Record UiTokenAmount := { uta_decimals : option Z }.

Record TokenBalance := {
  b_accountIndex : option nat;
  b_mint : option string;
  b_owner : option string;
  b_uiTokenAmount : option UiTokenAmount;
}.

(** A balance list is an array or is missing ([None], the [undefined] that
    [gather] replaces by the empty list).  A list given as [null] is not
    represented: [gather] cannot iterate it and the run throws. *)
Record Meta := {
  innerInstructions : option (list InnerGroup);
  preTokenBalances : option (list TokenBalance);
  postTokenBalances : option (list TokenBalance);
}.

Record ParsedTx := {
  instructions : option (list Instruction);
  accountKeys : option (list AccountKey);
  meta : option Meta;
}.

(** ** Records built by the parser *)

(** A raw transfer event, the objects pushed by [parseInstructionTransfers]
    and then updated in place by the later passes. *)
Record Transfer := {
  t_from : addr;
  t_to : addr;
  t_mint : string;
  t_amount : string;
  t_decimals : Z;
  t_rawFrom : addr;
  t_rawTo : addr;
}.

(** What is known about one token account: [{ mint, decimals, owner }], each
    field possibly unset. *)
Record AccountData := {
  d_mint : option string;
  d_owner : option string;
  d_decimals : option Z;
}.

Definition noData : AccountData :=
  {| d_mint := None; d_owner := None; d_decimals := None |}.

Definition set_mint (m : string) (d : AccountData) : AccountData :=
  {| d_mint := Some m; d_owner := d_owner d; d_decimals := d_decimals d |}.
Definition set_owner (o : string) (d : AccountData) : AccountData :=
  {| d_mint := d_mint d; d_owner := Some o; d_decimals := d_decimals d |}.
Definition set_decimals (n : Z) (d : AccountData) : AccountData :=
  {| d_mint := d_mint d; d_owner := d_owner d; d_decimals := Some n |}.

(** An entry of [onChainCache]: [{ owner, mint }], where [None] is [null]. *)
Record Cached := {
  c_owner : option string;
  c_mint : option string;
}.

(** ** [parseInstructionTransfers] *)

Definition tokenTransfer (info : Info) : Transfer :=
  let rawFrom := jsor (i_source info) (i_authority info) in
  let rawTo := i_destination info in
  let amt :=
    jsor_lit (jsor (i_amount info) (i_tokenAmount info ≫= ta_amount)) "0" in
  let mt := jsor_lit (i_mint info) UNKNOWN_MINT in
  let dec := jsor_lit (i_tokenAmount info ≫= ta_decimals) 0 in
  {| t_from := rawFrom; t_to := rawTo;
     t_mint := mt;
     t_amount := amt;
     t_decimals := dec;
     t_rawFrom := rawFrom; t_rawTo := rawTo |}.

Definition solTransfer (from to : addr) (lamports : Z) : Transfer :=
  {| t_from := from; t_to := to;
     t_mint := SOL;
     t_amount := String_of_number lamports;
     t_decimals := 9;
     t_rawFrom := from; t_rawTo := to |}.

Definition isTokenTransferType (type : string) : bool :=
  bool_decide (type = "transfer") || bool_decide (type = "transferChecked")
  || bool_decide (type = "transferCheckedWithFee").

Definition parseInstructionTransfers (ix : Instruction)
    (includeSolTransfers : bool) : list Transfer :=
  match parsed ix with
  | Some {| p_type := Some type; p_info := Some info |} =>
    if negb (truthy type) then [] else
    (if isTokenTransferType type then [tokenTransfer info] else [])
    ++ (if includeSolTransfers && bool_decide (type = "transfer")
           && truthy (i_lamports info)
        then [solTransfer (i_source info) (i_destination info)
                (default 0 (i_lamports info))]
        else [])
    ++ (if includeSolTransfers && bool_decide (type = "createAccount")
           && truthy (i_lamports info)
        then [solTransfer (i_source info) (i_newAccount info)
                (default 0 (i_lamports info))]
        else [])
  | _ => []
  end.

(** ** [buildTokenAccountMapFromInstructions] *)

Definition handleIx (map : gmap string string) (ix : Instruction)
    : gmap string string :=
  match parsed ix with
  | Some {| p_type := Some type; p_info := Some info |} =>
    if negb (truthy type) then map else
    if String.prefix "initializeAccount" type
       && truthy (i_account info) && truthy (i_owner info)
    then <[key (i_account info) := strval (i_owner info)]> map
    else if String.prefix "create" type
       && truthy (jsor (i_account info) (i_newAccount info))
       && truthy (jsor (i_owner info) (i_wallet info))
    then
      let tokenAcc := jsor (i_account info) (i_newAccount info) in
      <[key tokenAcc := strval (jsor (i_owner info) (i_wallet info))]> map
    else map
  | _ => map
  end.

(** Every instruction in the order the loops visit them: top-level first,
    then each inner group.  (The callers have checked that [meta] is
    there.) *)
Definition allInstructions (parsedTx : ParsedTx) : list Instruction :=
  default [] (instructions parsedTx)
  ++ (default [] (meta parsedTx ≫= innerInstructions)) ≫= g_instructions.

Definition buildTokenAccountMapFromInstructions (parsedTx : ParsedTx)
    : gmap string string :=
  foldl handleIx ∅ (allInstructions parsedTx).

(** ** [buildTokenAccountMapFromBalances] *)

Definition accountOfKey (acctObj : option AccountKey) : option string :=
  match acctObj with
  | Some (KeyString s) => Some s
  | Some (KeyObject pubkey) => pubkey
  | None => None
  end.

(** Body of the loop in [gather]; the entries of a balance list are
    objects, and an account index is an array index. *)
Definition gatherOne (keys : list AccountKey)
    (map : gmap string AccountData) (b : TokenBalance)
    : gmap string AccountData :=
  match b_accountIndex b with
  | None => map
  | Some accountIndex =>
    match truthy_value (accountOfKey (keys !! accountIndex)) with
    | None => map
    | Some acct =>
      let e0 := default noData (map !! acct) in
      let e1 := match truthy_value (b_mint b) with
                | Some m => set_mint m e0 | None => e0 end in
      let e2 := match truthy_value (b_owner b) with
                | Some o => set_owner o e1 | None => e1 end in
      let e3 := match b_uiTokenAmount b ≫= uta_decimals with
                | Some dec => set_decimals dec e2 | None => e2 end in
      <[acct := e3]> map
    end
  end.

Definition gather (keys : list AccountKey) (map : gmap string AccountData)
    (balArr : option (list TokenBalance)) : gmap string AccountData :=
  foldl (gatherOne keys) map (default [] balArr).

Definition buildTokenAccountMapFromBalances (parsedTx : ParsedTx)
    : gmap string AccountData :=
  let keys := default [] (accountKeys parsedTx) in
  let map := gather keys ∅ (meta parsedTx ≫= preTokenBalances) in
  gather keys map (meta parsedTx ≫= postTokenBalances).

(** ** The unified table [tokenAccountData] (before any network access) *)

Definition overlayOwner (tokenAccountData : gmap string AccountData)
    (acct : string) (owner : string) : gmap string AccountData :=
  <[acct := set_owner owner (default noData (tokenAccountData !! acct))]>
    tokenAccountData.

(** The copy of [balMap] followed by the loop over [ixMap]. *)
Definition unify (balMap : gmap string AccountData)
    (ixMap : gmap string string) : gmap string AccountData :=
  map_fold (λ acct owner tokenAccountData,
              overlayOwner tokenAccountData acct owner) balMap ixMap.

(** ** The addresses still to be fetched *)

(** [Set.prototype.add]: insertion order is kept, a present element is not
    added again. *)
Definition Set_add (a : addr) (s : list addr) : list addr :=
  if decide (a ∈ s) then s else s ++ [a].

Definition needsFetch (tokenAccountData : gmap string AccountData)
    (a : addr) : bool :=
  match tokenAccountData !! key a with
  | None => true
  | Some existing =>
    negb (truthy (d_owner existing))
    || bool_decide (d_mint existing = Some UNKNOWN_MINT)
  end.

Definition noteAddress (tokenAccountData : gmap string AccountData)
    (addressesToFetch : list addr) (a : addr) : list addr :=
  if needsFetch tokenAccountData a then Set_add a addressesToFetch
  else addressesToFetch.

Definition leftoverAddresses (tokenAccountData : gmap string AccountData)
    (transfers : list Transfer) : list addr :=
  foldl (λ addressesToFetch t,
           foldl (noteAddress tokenAccountData) addressesToFetch
             [t_rawFrom t; t_rawTo t])
        [] transfers.

(** ** The asynchronous part: requests to the RPC connection *)

(** An account as [getMultipleAccountsInfo] returns it: the owning program
    (its base58 text) and the raw data. *)
Record AccountInfo := {
  ai_owner : string;
  ai_data : list Byte.byte;
}.

(** A computation that may issue RPC requests and may throw. *)
Inductive Run (A : Type) : Type :=
  | Return (a : A)
  | Throw
  | GetParsedTransaction (signature : string) (k : option ParsedTx → Run A)
  | GetMultipleAccountsInfo (pubkeys : list addr)
      (k : list (option AccountInfo) → Run A).
Arguments Return {A} a.
Arguments Throw {A}.
Arguments GetParsedTransaction {A} signature k.
Arguments GetMultipleAccountsInfo {A} pubkeys k.

Fixpoint Run_bind {A B} (f : A → Run B) (r : Run A) : Run B :=
  match r with
  | Return a => f a
  | Throw => Throw
  | GetParsedTransaction signature k =>
    GetParsedTransaction signature (λ x, Run_bind f (k x))
  | GetMultipleAccountsInfo pubkeys k =>
    GetMultipleAccountsInfo pubkeys (λ x, Run_bind f (k x))
  end.

#[export] Instance Run_mbind : MBind Run := @Run_bind.
#[export] Instance Run_mret : MRet Run := @Return.

(** The connection: each request either resolves to a value or is rejected
    ([None]). *)
Record Connection := {
  getParsedTransaction : string → option (option ParsedTx);
  getMultipleAccountsInfo : list addr → option (list (option AccountInfo));
}.

Inductive Request :=
  | ReqParsedTransaction (signature : string)
  | ReqMultipleAccountsInfo (pubkeys : list addr).

(** Running a computation against a connection: the value it resolves to
    ([None] when it throws or a request is rejected) and the requests it
    issued, in order. *)
Fixpoint exec {A} (conn : Connection) (r : Run A)
    : option A * list Request :=
  match r with
  | Return a => (Some a, [])
  | Throw => (None, [])
  | GetParsedTransaction signature k =>
    match getParsedTransaction conn signature with
    | None => (None, [ReqParsedTransaction signature])
    | Some x =>
      let '(a, tr) := exec conn (k x) in
      (a, ReqParsedTransaction signature :: tr)
    end
  | GetMultipleAccountsInfo pubkeys k =>
    match getMultipleAccountsInfo conn pubkeys with
    | None => (None, [ReqMultipleAccountsInfo pubkeys])
    | Some x =>
      let '(a, tr) := exec conn (k x) in
      (a, ReqMultipleAccountsInfo pubkeys :: tr)
    end
  end.

(** ** Merging the fetched accounts and rewriting the transfers *)

(** The two conditional assignments from a cache entry. *)
Definition mergeCached (cached : option Cached) (e : AccountData)
    : AccountData :=
  let e := match truthy_value (cached ≫= c_owner) with
           | Some o => set_owner o e | None => e end in
  match truthy_value (cached ≫= c_mint) with
  | Some m => set_mint m e | None => e end.

(** One round of the loop over [addressesToFetch]. *)
Definition incorporateOne (onChainCache : gmap string Cached)
    (tokenAccountData : gmap string AccountData) (a : addr)
    : gmap string AccountData :=
  let e := default noData (tokenAccountData !! key a) in
  let cached := onChainCache !! key a in
  <[key a := mergeCached cached e]> tokenAccountData.

Definition incorporate (onChainCache : gmap string Cached)
    (tokenAccountData : gmap string AccountData)
    (addressesToFetch : list addr) : gmap string AccountData :=
  foldl (incorporateOne onChainCache) tokenAccountData addressesToFetch.

Definition with_from (a : addr) (t : Transfer) : Transfer :=
  {| t_from := a; t_to := t_to t; t_mint := t_mint t; t_amount := t_amount t;
     t_decimals := t_decimals t; t_rawFrom := t_rawFrom t;
     t_rawTo := t_rawTo t |}.
Definition with_to (a : addr) (t : Transfer) : Transfer :=
  {| t_from := t_from t; t_to := a; t_mint := t_mint t; t_amount := t_amount t;
     t_decimals := t_decimals t; t_rawFrom := t_rawFrom t;
     t_rawTo := t_rawTo t |}.
Definition with_mint (m : string) (t : Transfer) : Transfer :=
  {| t_from := t_from t; t_to := t_to t; t_mint := m; t_amount := t_amount t;
     t_decimals := t_decimals t; t_rawFrom := t_rawFrom t;
     t_rawTo := t_rawTo t |}.
Definition with_decimals (n : Z) (t : Transfer) : Transfer :=
  {| t_from := t_from t; t_to := t_to t; t_mint := t_mint t;
     t_amount := t_amount t; t_decimals := n; t_rawFrom := t_rawFrom t;
     t_rawTo := t_rawTo t |}.

(** Body of the loop "rewrite ephemeral token accounts => real owners". *)
Definition rewriteOwners (tokenAccountData : gmap string AccountData)
    (t : Transfer) : Transfer :=
  let fData := tokenAccountData !! key (t_rawFrom t) in
  let toData := tokenAccountData !! key (t_rawTo t) in
  let t := if truthy (fData ≫= d_owner)
           then with_from (fData ≫= d_owner) t else t in
  if truthy (toData ≫= d_owner)
  then with_to (toData ≫= d_owner) t else t.

Definition copyMint (data : AccountData) (mint : string) (t : Transfer)
    : Transfer :=
  let t := with_mint mint t in
  match d_decimals data with
  | Some dec => with_decimals dec t
  | None => t
  end.

Definition isPositive (dec : option Z) : bool :=
  match dec with Some n => (0 <? n)%Z | None => false end.

(** Body of the loop that fixes "UNKNOWN_MINT" or decimals=0. *)
Definition fixMintDecimals (tokenAccountData : gmap string AccountData)
    (t : Transfer) : Transfer :=
  let fData := default noData (tokenAccountData !! key (t_rawFrom t)) in
  let toData := default noData (tokenAccountData !! key (t_rawTo t)) in
  let t :=
    if bool_decide (t_mint t = UNKNOWN_MINT) then
      match truthy_value (d_mint fData), truthy_value (d_mint toData) with
      | Some m, _ => copyMint fData m t
      | None, Some m => copyMint toData m t
      | None, None => t
      end
    else t in
  if bool_decide (t_decimals t = 0) then
    if isPositive (d_decimals fData)
    then with_decimals (default 0 (d_decimals fData)) t
    else if isPositive (d_decimals toData)
    then with_decimals (default 0 (d_decimals toData)) t
    else t
  else t.

(** The records returned to the caller; [uiAmount] is a number of the
    language or [null]. *)
Record ResolvedTransfer {Number : Type} := {
  fromTokenAccount : addr;
  toTokenAccount : addr;
  fromUserAccount : addr;
  toUserAccount : addr;
  amount : string;
  mint : string;
  decimals : Z;
  uiAmount : option Number;
}.
Arguments ResolvedTransfer : clear implicits.

(** ** The final pass, [fetchMultipleTokenAccountInfos] and the entry point *)

Section Parser.

Context `{JSNumbers}.

(** Body of the final [transfers.map]. *)
Definition finish (x : Transfer) : ResolvedTransfer Number :=
  let rawNum := parseFloat (t_amount x) in
  let uiAmount :=
    if negb (isNaN rawNum)
    then Some (Number_divide rawNum (Math_pow10 (jsor (t_decimals x) 0)))
    else None in
  {| fromTokenAccount := t_rawFrom x;
     toTokenAccount := t_rawTo x;
     fromUserAccount := t_from x;
     toUserAccount := t_to x;
     amount := t_amount x;
     mint := t_mint x;
     decimals := t_decimals x;
     uiAmount := uiAmount |}.

(** Everything [parseTransfersFromSignature] does after the fetch. *)
Definition reconcile (tokenAccountData : gmap string AccountData)
    (transfers : list Transfer) : list (ResolvedTransfer Number) :=
  let transfers := rewriteOwners tokenAccountData <$> transfers in
  let transfers := fixMintDecimals tokenAccountData <$> transfers in
  finish <$> transfers.


(** What the parser takes from [@solana/web3.js]:
    whether [new PublicKey(a)] accepts the address [a] (it throws
    otherwise), and the base58 text of the key made of 32 bytes. *)
Variable isPublicKey : addr → bool.
Variable toBase58 : list Byte.byte → string.

(** [buffer.subarray(b, e)]. *)
Definition subarray {A} (b e : nat) (buffer : list A) : list A :=
  take (e - b) (drop b buffer).

Definition notResolvable : Cached := {| c_owner := None; c_mint := None |}.

(** What the loop stores for one returned account. *)
Definition parseAccountInfo (info : option AccountInfo) : Cached :=
  match info with
  | None => notResolvable
  | Some info =>
    if negb (bool_decide (ai_owner info = TOKEN_PROGRAM_ID))
    then notResolvable
    else if (length (ai_data info) <? MIN_TOKEN_ACCOUNT_DATA_LEN)%nat
    then notResolvable
    else
      let buffer := ai_data info in
      let mintPubKey := subarray 0 32 buffer in
      let ownerPubKey := subarray 32 64 buffer in
      {| c_owner := Some (toBase58 ownerPubKey);
         c_mint := Some (toBase58 mintPubKey) |}
  end.

(** Round [i] of the loop over [accountInfos]. *)
Definition storeAccountInfo (tokenAccounts : list addr)
    (accountInfos : list (option AccountInfo))
    (onChainCache : gmap string Cached) (i : nat) : gmap string Cached :=
  let a := mjoin (tokenAccounts !! i) in
  match accountInfos !! i with
  | Some info => <[key a := parseAccountInfo info]> onChainCache
  | None => onChainCache
  end.

Definition parseAccountInfos (tokenAccounts : list addr)
    (accountInfos : list (option AccountInfo))
    (onChainCache : gmap string Cached) : gmap string Cached :=
  foldl (storeAccountInfo tokenAccounts accountInfos) onChainCache
    (seq 0 (length accountInfos)).

(** The cache is returned instead of being updated in place. *)
Definition fetchMultipleTokenAccountInfos (tokenAccounts : list addr)
    (onChainCache : gmap string Cached) : Run (gmap string Cached) :=
  if forallb isPublicKey tokenAccounts then
    GetMultipleAccountsInfo tokenAccounts (λ accountInfos,
      Return (parseAccountInfos tokenAccounts accountInfos onChainCache))
  else Throw.

Definition gatherTransfers (parsedTx : ParsedTx)
    (includeSolTransfers : bool) : list Transfer :=
  allInstructions parsedTx
    ≫= (λ ix, parseInstructionTransfers ix includeSolTransfers).

(** [tokenAccountData] as it stands before the fetch. *)
Definition knownBeforeFetch (parsedTx : ParsedTx)
    : gmap string AccountData :=
  let ixMap := buildTokenAccountMapFromInstructions parsedTx in
  let balMap := buildTokenAccountMapFromBalances parsedTx in
  unify balMap ixMap.

Definition parseTransfersFromSignature (signature : string)
    (includeSolTransfers : bool) : Run (list (ResolvedTransfer Number)) :=
  parsedTx ← GetParsedTransaction signature Return;
  match parsedTx with
  | None => Return []
  | Some parsedTx =>
    match meta parsedTx with
    | None => Return []
    | Some _ =>
      let transfers := gatherTransfers parsedTx includeSolTransfers in
      let tokenAccountData := knownBeforeFetch parsedTx in
      let addressesToFetch :=
        leftoverAddresses tokenAccountData transfers in
      onChainCache ←
        (if bool_decide (0 < length addressesToFetch)%nat
         then fetchMultipleTokenAccountInfos addressesToFetch ∅
         else Return ∅);
      let tokenAccountData :=
        incorporate onChainCache tokenAccountData addressesToFetch in
      Return (reconcile tokenAccountData transfers)
    end
  end.

(** *** The intermediate states of a run against a connection *)

Variable conn : Connection.

(** The addresses the run asks about. *)
Definition addressesOf (parsedTx : ParsedTx) (includeSolTransfers : bool)
    : list addr :=
  leftoverAddresses (knownBeforeFetch parsedTx)
    (gatherTransfers parsedTx includeSolTransfers).

(** [onChainCache] once the fetch has been awaited. *)
Definition cacheOf (parsedTx : ParsedTx) (includeSolTransfers : bool)
    : gmap string Cached :=
  let l := addressesOf parsedTx includeSolTransfers in
  match l, getMultipleAccountsInfo conn l with
  | _ :: _, Some accountInfos => parseAccountInfos l accountInfos ∅
  | _, _ => ∅
  end.

(** [tokenAccountData] once the fetched accounts have been merged. *)
Definition knownAfterFetch (parsedTx : ParsedTx)
    (includeSolTransfers : bool) : gmap string AccountData :=
  incorporate (cacheOf parsedTx includeSolTransfers)
    (knownBeforeFetch parsedTx)
    (addressesOf parsedTx includeSolTransfers).

End Parser.

(** * The statements' vocabulary *)

(** A string field counts as given when it is present and not empty. *)
Definition given (f : option string) : option string :=
  match f with
  | Some EmptyString => None
  | _ => f
  end.

(** The token event in the words of the decoder's description: source or
    else authority; destination; amount, else the nested amount, else "0";
    mint, else the sentinel; nested decimals, else 0. *)
Definition describedTokenEvent (info : Info) : Transfer :=
  let source :=
    match given (i_source info) with
    | Some s => Some s
    | None => i_authority info
    end in
  let amount :=
    match given (i_amount info) with
    | Some a => a
    | None =>
      match given (i_tokenAmount info ≫= ta_amount) with
      | Some a => a
      | None => "0"
      end
    end in
  let mint :=
    match given (i_mint info) with
    | Some m => m
    | None => UNKNOWN_MINT
    end in
  let decimals :=
    match i_tokenAmount info ≫= ta_decimals with
    | Some d => d
    | None => 0
    end in
  {| t_from := source; t_to := i_destination info;
     t_mint := mint; t_amount := amount; t_decimals := decimals;
     t_rawFrom := source; t_rawTo := i_destination info |}.

(** The endpoint shown for a container: the owner on record when the entry
    exists and has one, the container's own address otherwise. *)
Definition displayedOwner (tokenAccountData : gmap string AccountData)
    (container : addr) : addr :=
  match tokenAccountData !! key container with
  | Some {| d_owner := Some owner |} => Some owner
  | _ => container
  end.

(** Mint backfill as described: for a sentinel mint, the first of source and
    destination that has a mint gives it, together with its decimals when it
    has them. *)
Definition mintBackfill (src dst : AccountData) (t : Transfer) : Transfer :=
  if bool_decide (t_mint t = UNKNOWN_MINT) then
    match List.find (λ d, truthy (d_mint d)) [src; dst] with
    | Some d =>
      with_decimals (default (t_decimals t) (d_decimals d))
        (with_mint (strval (d_mint d)) t)
    | None => t
    end
  else t.

(** Decimals backfill as described: for decimals 0, the first strictly
    positive decimals among source then destination. *)
Definition decimalsBackfill (src dst : AccountData) (t : Transfer)
    : Transfer :=
  if bool_decide (t_decimals t = 0) then
    match List.find (λ n, 0 <? n)%Z (omap d_decimals [src; dst]) with
    | Some n => with_decimals n t
    | None => t
    end
  else t.

(** An address is unresolved when the table has no entry for it, or the
    entry has no owner, or its mint is the sentinel. *)
Definition unresolved (tokenAccountData : gmap string AccountData)
    (a : addr) : Prop :=
  match tokenAccountData !! key a with
  | None => True
  | Some e => d_owner e = None ∨ d_mint e = Some UNKNOWN_MINT
  end.

(** The bytes at positions [lo], ..., [hi - 1]. *)
Definition bytesRange {A} (lo hi : nat) (data : list A) : list A :=
  omap (λ i, data !! i) (seq lo (hi - lo)).

(** The mint the balance snapshots report for a container. *)
Definition snapshotMint (parsedTx : ParsedTx) (container : string)
    : option string :=
  buildTokenAccountMapFromBalances parsedTx !! container ≫= d_mint.

(** The mint the batched lookup of the run returned for a container it was
    asked about. *)
Definition lookupMint (toBase58 : list Byte.byte → string)
    (conn : Connection) (parsedTx : ParsedTx) (includeSolTransfers : bool)
    (container : string) : option string :=
  if decide (container ∈ key <$> addressesOf parsedTx includeSolTransfers)
  then truthy_value
         (cacheOf toBase58 conn parsedTx includeSolTransfers !! container
          ≫= c_mint)
  else None.

(** The value of a decimal digit. *)
Definition digitValue (c : ascii) : option Z :=
  let n := Z.of_N (N_of_ascii c) in
  if ((48 <=? n) && (n <=? 57))%Z then Some (n - 48)%Z else None.

(** Strings hold the UTF-8 bytes of the text.  The white space and line
    terminators that [parseFloat] skips: the one-byte characters U+0009 to
    U+000D and U+0020, the two-byte U+00A0, and the three-byte U+1680,
    U+2000 to U+200A, U+2028, U+2029, U+202F, U+205F, U+3000 and U+FEFF. *)
Definition isWhiteSpace1 (c : ascii) : bool :=
  let n := Z.of_N (N_of_ascii c) in
  ((9 <=? n)%Z && (n <=? 13)%Z) || (n =? 32)%Z.

Definition isWhiteSpace2 (c1 c2 : ascii) : bool :=
  let n1 := Z.of_N (N_of_ascii c1) in
  let n2 := Z.of_N (N_of_ascii c2) in
  (n1 =? 194)%Z && (n2 =? 160)%Z.

Definition isWhiteSpace3 (c1 c2 c3 : ascii) : bool :=
  let n1 := Z.of_N (N_of_ascii c1) in
  let n2 := Z.of_N (N_of_ascii c2) in
  let n3 := Z.of_N (N_of_ascii c3) in
  ((n1 =? 225)%Z && (n2 =? 154)%Z && (n3 =? 128)%Z)
  || ((n1 =? 226)%Z && (n2 =? 128)%Z
      && (((128 <=? n3)%Z && (n3 <=? 138)%Z)
          || (n3 =? 168)%Z || (n3 =? 169)%Z || (n3 =? 175)%Z))
  || ((n1 =? 226)%Z && (n2 =? 129)%Z && (n3 =? 159)%Z)
  || ((n1 =? 227)%Z && (n2 =? 128)%Z && (n3 =? 128)%Z)
  || ((n1 =? 239)%Z && (n2 =? 187)%Z && (n3 =? 191)%Z).

(** The string without its leading white space. *)
Fixpoint trimStart (s : string) : string :=
  match s with
  | String c1 r1 =>
    if isWhiteSpace1 c1 then trimStart r1 else
    match r1 with
    | String c2 r2 =>
      if isWhiteSpace2 c1 c2 then trimStart r2 else
      match r2 with
      | String c3 r3 =>
        if isWhiteSpace3 c1 c2 c3 then trimStart r3 else s
      | EmptyString => s
      end
    | EmptyString => s
    end
  | EmptyString => s
  end.

(** An optional sign at the front of [s]: whether it is a minus, and what
    follows it. *)
Definition readSign (s : string) : bool * string :=
  match s with
  | String c r =>
    if bool_decide (c = "+"%char) then (false, r)
    else if bool_decide (c = "-"%char) then (true, r)
    else (false, s)
  | EmptyString => (false, s)
  end.

Definition startsWithDigit (s : string) : bool :=
  match s with
  | String c _ => bool_decide (is_Some (digitValue c))
  | EmptyString => false
  end.

(** The string has a numeric prefix, which is when [parseFloat] reads a
    number from it: after the leading white space and an optional sign, it
    starts with a digit, with a dot followed by a digit, or with
    Infinity. *)
Definition startsNumber (s : string) : bool :=
  let s := (readSign (trimStart s)).2 in
  String.prefix "Infinity" s
  || startsWithDigit s
  || match s with
     | String c r => bool_decide (c = "."%char) && startsWithDigit r
     | EmptyString => false
     end.

(** The value of a string made of decimal digits only. *)
Fixpoint digitsValue (acc : Z) (s : string) : option Z :=
  match s with
  | EmptyString => Some acc
  | String c r =>
    match digitValue c with
    | Some d => digitsValue (10 * acc + d) r
    | None => None
    end
  end.

Definition integerNumeral (s : string) : option Z :=
  match s with
  | EmptyString => None
  | _ => digitsValue 0 s
  end.

(** Nothing known in [m] is lost in [m']: an owner or a mint that has a
    value in [m] still has one in [m']. *)
Definition keepsKnown (m m' : gmap string AccountData) : Prop :=
  ∀ a e, m !! a = Some e →
    ∃ e', m' !! a = Some e'
      ∧ (is_Some (d_owner e) → is_Some (d_owner e'))
      ∧ (is_Some (d_mint e) → is_Some (d_mint e')).

(** No field of the entry holds the empty string. *)
Definition entryGiven (e : AccountData) : Prop :=
  d_owner e ≠ Some "" ∧ d_mint e ≠ Some "".

Definition fieldsGiven (m : gmap string AccountData) : Prop :=
  map_Forall (λ _ e, entryGiven e) m.

Definition keysGiven {V} (m : gmap string V) : Prop :=
  map_Forall (λ k _, k ≠ "") m.

Definition isBatchedLookup (r : Request) : bool :=
  match r with
  | ReqMultipleAccountsInfo _ => true
  | ReqParsedTransaction _ => false
  end.

(** The endpoints of the raw transfers, in the order the loop visits
    them. *)
Definition endpoints (transfers : list Transfer) : list addr :=
  transfers ≫= (λ t, [t_rawFrom t; t_rawTo t]).

(** The record for one returned account, as described: the marker with null
    owner and mint unless the account exists, belongs to the token program
    and has at least 64 bytes of data; then the mint read from bytes
    [0,32) and the owner read from bytes [32,64). *)
Definition describedRecord (toBase58 : list Byte.byte → string)
    (info : option AccountInfo) : Cached :=
  match info with
  | Some account =>
    if decide (ai_owner account = TOKEN_PROGRAM_ID
               ∧ (64 ≤ length (ai_data account))%nat)
    then {| c_owner := Some (toBase58 (bytesRange 32 64 (ai_data account)));
            c_mint := Some (toBase58 (bytesRange 0 32 (ai_data account))) |}
    else {| c_owner := None; c_mint := None |}
  | None => {| c_owner := None; c_mint := None |}
  end.

(** * A stand-in for the numbers

    An implementation of [JSNumbers] on which the parser can be run: it
    reads the longest decimal literal at the front of a string, as
    [parseFloat] does, but keeps the exact rational the literal denotes
    where the language rounds to a binary64 value.  It serves for the
    sample runs only. *)

Inductive ExactNumber :=
  | NaN
  | Infinity (negative : bool)
  | Finite (q : Q).

Definition exactIsNaN (x : ExactNumber) : bool :=
  match x with NaN => true | _ => false end.

(** Reads the longest run of decimal digits at the front of [s], continuing
    the numeral [acc]: the value, the number of digits read, the rest. *)
Fixpoint readDigits (acc : Z) (s : string) : Z * nat * string :=
  match s with
  | String c r =>
    match digitValue c with
    | Some d => let '(v, n, rest) := readDigits (10 * acc + d) r in
                (v, S n, rest)
    | None => (acc, 0%nat, s)
    end
  | EmptyString => (acc, 0%nat, s)
  end.

(** The exponent part at the front of [s], when there is a complete one,
    and what follows it. *)
Definition readExponent (s : string) : Z * string :=
  match s with
  | String c r =>
    if bool_decide (c = "e"%char) || bool_decide (c = "E"%char) then
      let '(neg, r') := readSign r in
      let '(v, n, rest) := readDigits 0 r' in
      if bool_decide (n = 0%nat) then (0, s)
      else (if neg then - v else v, rest)
    else (0, s)
  | EmptyString => (0, s)
  end.

(** A dot and the digits after it, continuing the numeral [ip]. *)
Definition readFraction (ip : Z) (s : string) : Z * nat * string :=
  match s with
  | String c r =>
    if bool_decide (c = "."%char) then readDigits ip r else (ip, 0%nat, s)
  | EmptyString => (ip, 0%nat, s)
  end.

Definition scale10 (m e : Z) : Q := Qred (inject_Z m * Qpower (10 # 1) e).

(** The longest prefix of [s] that is a decimal literal, after the leading
    white space: its value ([NaN] when there is no such prefix) and the
    characters left over. *)
Definition scanFloat (s : string) : ExactNumber * string :=
  let s := trimStart s in
  let '(neg, s1) := readSign s in
  if String.prefix "Infinity" s1
  then (Infinity neg, String.substring 8 (String.length s1 - 8) s1) else
  let '(ip, ni, r1) := readDigits 0 s1 in
  let '(m, nf, r2) := readFraction ip r1 in
  if bool_decide (ni = 0%nat) && bool_decide (nf = 0%nat) then (NaN, s) else
  let '(e, rest) := readExponent r2 in
  (Finite (scale10 (if neg then - m else m) (e - Z.of_nat nf)), rest).

Definition exactParseFloat (s : string) : ExactNumber := (scanFloat s).1.

Definition isNegative (q : Q) : bool := (Qnum q <? 0)%Z.

Definition exactDivide (x y : ExactNumber) : ExactNumber :=
  match x, y with
  | NaN, _ | _, NaN => NaN
  | Infinity _, Infinity _ => NaN
  | Infinity negative, Finite q => Infinity (xorb negative (isNegative q))
  | Finite _, Infinity _ => Finite 0
  | Finite p, Finite q =>
    if (Qnum q =? 0)%Z
    then (if (Qnum p =? 0)%Z then NaN else Infinity (isNegative p))
    else Finite (Qred (p / q))
  end.

Definition exactPow10 (d : Z) : ExactNumber :=
  Finite (Qred (Qpower (10 # 1) d)).

Definition sampleNumbers : JSNumbers :=
  {| Number := ExactNumber;
     parseFloat := exactParseFloat;
     isNaN := exactIsNaN;
     Number_divide := exactDivide;
     Math_pow10 := exactPow10 |}.


(** A transferChecked payload used to exercise the statements. *)
Definition checkedInfo : Info :=
  {| i_source := Some "C1"; i_authority := Some "A1";
     i_destination := Some "C2"; i_newAccount := None;
     i_account := None; i_owner := None; i_wallet := None;
     i_mint := Some "MintX"; i_amount := None;
     i_tokenAmount := Some {| ta_amount := Some "1000000";
                              ta_decimals := Some 6 |};
     i_lamports := None |}.

Definition checkedIx : Instruction :=
  {| parsed := Some {| p_type := Some "transferChecked";
                       p_info := Some checkedInfo |} |}.


(** A table that knows both endpoints of [checkedIx] under another mint. *)
Definition otherMintTable : gmap string AccountData :=
  {[ "C1" := {| d_mint := Some "MintB"; d_owner := Some "OwnerA";
                d_decimals := Some 9 |};
     "C2" := {| d_mint := Some "MintC"; d_owner := None;
                d_decimals := Some 2 |} ]}.

Definition checkedEvent : Transfer :=
  {| t_from := Some "C1"; t_to := Some "C2"; t_mint := "MintA";
     t_amount := "1000000"; t_decimals := 6;
     t_rawFrom := Some "C1"; t_rawTo := Some "C2" |}.

(** A transaction with a static hint for C1, a plain transfer C1 -> C2, an
    inner transferChecked, and a balance snapshot for C1. *)
Definition hintIx : Instruction :=
  {| parsed := Some {| p_type := Some "initializeAccount3";
       p_info := Some
         {| i_source := None; i_authority := None; i_destination := None;
            i_newAccount := None; i_account := Some "C1";
            i_owner := Some "OwnerA"; i_wallet := None; i_mint := None;
            i_amount := None; i_tokenAmount := None;
            i_lamports := None |} |} |}.

Definition plainTransfer (source destination amount : string)
    : Instruction :=
  {| parsed := Some {| p_type := Some "transfer";
       p_info := Some
         {| i_source := Some source; i_authority := None;
            i_destination := Some destination;
            i_newAccount := None; i_account := None; i_owner := None;
            i_wallet := None; i_mint := None; i_amount := Some amount;
            i_tokenAmount := None; i_lamports := None |} |} |}.

Definition sampleTx : ParsedTx :=
  {| instructions := Some [hintIx; plainTransfer "C1" "C2" "250"];
     accountKeys := Some [KeyString "C1"; KeyObject (Some "C2")];
     meta := Some
       {| innerInstructions := Some [{| g_instructions := [checkedIx] |}];
          preTokenBalances := Some
            [{| b_accountIndex := Some 0%nat; b_mint := Some "MintY";
                b_owner := Some "OwnerB";
                b_uiTokenAmount := Some {| uta_decimals := Some 2 |} |}];
          postTokenBalances := Some [] |} |}.

(** Two well-formed addresses the sample ledger has no account for. *)
Definition addressA : string := "So11111111111111111111111111111111111111112".
Definition addressB : string := "SysvarRent111111111111111111111111111111111".

(** A transaction about which nothing is known, with a malformed amount. *)
Definition bareTx : ParsedTx :=
  {| instructions := Some [plainTransfer addressA addressB "12abc"];
     accountKeys := None;
     meta := Some {| innerInstructions := None; preTokenBalances := None;
                     postTokenBalances := None |} |}.

(** The token account the sample ledger holds at C2: 32 bytes of mint, 32
    bytes of owner, then further data. *)
Definition accountC2 : AccountInfo :=
  {| ai_owner := TOKEN_PROGRAM_ID;
     ai_data := replicate 32 Byte.x4d ++ replicate 32 Byte.x4f
                ++ replicate 101 Byte.x00 |}.

Definition sampleConn : Connection :=
  {| getParsedTransaction := λ signature,
       if bool_decide (signature = "sig1") then Some (Some sampleTx)
       else if bool_decide (signature = "sig2") then Some (Some bareTx)
       else Some None;
     getMultipleAccountsInfo := λ pubkeys,
       Some ((λ a, if bool_decide (a = Some "C2") then Some accountC2
                   else None) <$> pubkeys) |}.

(** Stand-ins for the library: every non-empty string is taken for a key,
    and a key is printed as its first byte. *)
Definition sampleIsPublicKey (a : addr) : bool := truthy a.

Definition sampleBase58 (bytes : list Byte.byte) : string :=
  match bytes with
  | b :: _ => String (ascii_of_byte b) ""
  | [] => ""
  end.

Definition sampleRun (signature : string)
    : option (list (ResolvedTransfer ExactNumber)) * list Request :=
  exec sampleConn
    (parseTransfersFromSignature (H := sampleNumbers) sampleIsPublicKey
       sampleBase58 signature true).

(** What the run on ["sig1"] returns. *)
Definition plainRecord : ResolvedTransfer ExactNumber :=
  {| fromTokenAccount := Some "C1"; toTokenAccount := Some "C2";
     fromUserAccount := Some "OwnerA"; toUserAccount := Some "O";
     amount := "250"; mint := "MintY"; decimals := 2;
     uiAmount := Some (Finite (5 # 2)) |}.

Definition checkedRecord : ResolvedTransfer ExactNumber :=
  {| fromTokenAccount := Some "C1"; toTokenAccount := Some "C2";
     fromUserAccount := Some "OwnerA"; toUserAccount := Some "O";
     amount := "1000000"; mint := "MintX"; decimals := 6;
     uiAmount := Some (Finite 1) |}.

(** What the run on ["sig2"] returns. *)
Definition bareRecord : ResolvedTransfer ExactNumber :=
  {| fromTokenAccount := Some addressA; toTokenAccount := Some addressB;
     fromUserAccount := Some addressA; toUserAccount := Some addressB;
     amount := "12abc"; mint := UNKNOWN_MINT; decimals := 0;
     uiAmount := Some (Finite 12) |}.








(** A lookup that found nothing at C1. *)
Definition nothingAtC1 : gmap string Cached :=
  {[ "C1" := {| c_owner := None; c_mint := None |} ]}.

Definition knownC1 : AccountData :=
  {| d_mint := Some "MintY"; d_owner := Some "OwnerA";
     d_decimals := Some 2 |}.

(** * Further vocabulary and sample data *)

(** A native transfer of five units, as the system program reports it. *)
Definition lamportsIx : Instruction :=
  {| parsed := Some {| p_type := Some "transfer";
       p_info := Some
         {| i_source := Some addressA; i_authority := None;
            i_destination := Some addressB;
            i_newAccount := None; i_account := None; i_owner := None;
            i_wallet := None; i_mint := None; i_amount := None;
            i_tokenAmount := None; i_lamports := Some 5000000000 |} |} |}.

(** The hint an instruction gives, as (container, owner): an
    initializeAccount... instruction with an account and an owner, or a
    create... instruction with an account (or else a new account) and an
    owner (or else a wallet). *)
Definition describedHint (ix : Instruction) : option (string * string) :=
  match parsed ix with
  | Some {| p_type := Some type; p_info := Some info |} =>
    if String.prefix "initializeAccount" type then
      match given (i_account info), given (i_owner info) with
      | Some container, Some owner => Some (container, owner)
      | _, _ => None
      end
    else if String.prefix "create" type then
      let account := match given (i_account info) with
                     | Some a => Some a
                     | None => given (i_newAccount info)
                     end in
      let owner := match given (i_owner info) with
                   | Some o => Some o
                   | None => given (i_wallet info)
                   end in
      match account, owner with
      | Some container, Some owner => Some (container, owner)
      | _, _ => None
      end
    else None
  | _ => None
  end.

(** The owner an instruction hints for [container], if any. *)
Definition hintFor (container : string) (ix : Instruction) : option string :=
  match describedHint ix with
  | Some (c, owner) => if decide (c = container) then Some owner else None
  | None => None
  end.

(** The container a balance entry is about: the non-empty address its
    account index points to in the account keys. *)
Definition balanceAccount (keys : list AccountKey) (b : TokenBalance)
    : option string :=
  b_accountIndex b ≫= λ i, given (accountOfKey (keys !! i)).

(** The balance entries in the order they are gathered: pre, then post. *)
Definition balancesOf (parsedTx : ParsedTx) : list TokenBalance :=
  default [] (meta parsedTx ≫= preTokenBalances)
  ++ default [] (meta parsedTx ≫= postTokenBalances).

(** The last value of a field that the entries about [container] give. *)
Definition lastReported {X} (keys : list AccountKey) (container : string)
    (field : TokenBalance → option X) (bs : list TokenBalance) : option X :=
  last (omap (λ b, if decide (balanceAccount keys b = Some container)
                   then field b else None) bs).

(** The owner the batched lookup of the run returned for a container it was
    asked about. *)
Definition lookupOwner (toBase58 : list Byte.byte → string)
    (conn : Connection) (parsedTx : ParsedTx) (includeSolTransfers : bool)
    (container : string) : option string :=
  if decide (container ∈ key <$> addressesOf parsedTx includeSolTransfers)
  then given
         (cacheOf toBase58 conn parsedTx includeSolTransfers !! container
          ≫= c_owner)
  else None.

(** The elements of a list in the order of their first occurrence. *)
Fixpoint firstOccurrences (l : list addr) : list addr :=
  match l with
  | [] => []
  | a :: l => a :: filter (λ b, b ≠ a) (firstOccurrences l)
  end.

(** A transaction whose only instruction initializes an account, on a
    ledger that knows nothing else. *)
Definition quietTx : ParsedTx :=
  {| instructions := Some [hintIx];
     accountKeys := None;
     meta := Some {| innerInstructions := None; preTokenBalances := None;
                     postTokenBalances := None |} |}.

Definition quietConn : Connection :=
  {| getParsedTransaction := λ _, Some (Some quietTx);
     getMultipleAccountsInfo := λ _, None |}.
(** * Properties *)

(** ** Truthiness *)

Lemma truthy_string_nonempty (s : string) : truthy s = true ↔ s ≠ "".
Proof. destruct s; unfold truthy, string_truthy; split; congruence. Qed.

Lemma truthy_value_Some {A} {T : Truthy A} (a : option A) (x : A) :
  truthy_value a = Some x ↔ a = Some x ∧ truthy x = true.
Proof.
  destruct a as [y|]; simpl.
  - destruct (truthy y) eqn:Hy; split.
    + by intros [= ->].
    + by intros [[= ->] _].
    + done.
    + intros [[= ->] ?]; congruence.
  - split; [done|by intros [? _]].
Qed.

Lemma truthy_value_None {A} {T : Truthy A} (a : option A) :
  truthy_value a = None ↔ truthy a = false.
Proof.
  destruct a as [y|]; simpl; [|done].
  change (truthy (Some y)) with (truthy y). by destruct (truthy y).
Qed.

Lemma truthy_option_Some {A} {T : Truthy A} (a : option A) :
  truthy a = true ↔ ∃ x, a = Some x ∧ truthy x = true.
Proof.
  destruct a as [y|]; [change (truthy (Some y)) with (truthy y)|].
  - split; [by exists y|by intros (x & [= ->] & ?)].
  - split; [done|by intros (x & ? & _)].
Qed.

(** ** The run of the entry point, request by request *)

Section Runs.

Variable isPublicKey : addr → bool.
Variable toBase58 : list Byte.byte → string.
Variable conn : Connection.
Context `{JSNumbers}.

Lemma exec_parseTransfersFromSignature signature includeSolTransfers :
  exec conn
    (parseTransfersFromSignature isPublicKey toBase58 signature
       includeSolTransfers)
  = match getParsedTransaction conn signature with
    | None => (None, [ReqParsedTransaction signature])
    | Some None => (Some [], [ReqParsedTransaction signature])
    | Some (Some parsedTx) =>
      match meta parsedTx with
      | None => (Some [], [ReqParsedTransaction signature])
      | Some _ =>
        let l := addressesOf parsedTx includeSolTransfers in
        let out :=
          reconcile (knownAfterFetch toBase58 conn parsedTx includeSolTransfers)
            (gatherTransfers parsedTx includeSolTransfers) in
        match l with
        | [] => (Some out, [ReqParsedTransaction signature])
        | _ :: _ =>
          if forallb isPublicKey l then
            (match getMultipleAccountsInfo conn l with
             | Some _ => Some out
             | None => None
             end,
             [ReqParsedTransaction signature; ReqMultipleAccountsInfo l])
          else (None, [ReqParsedTransaction signature])
        end
      end
    end.
Proof.
  unfold parseTransfersFromSignature, knownAfterFetch, cacheOf, addressesOf.
  cbn [mbind Run_mbind Run_bind exec].
  destruct (getParsedTransaction conn signature) as [[parsedTx|]|];
    [|done..].
  cbn [Run_bind]. destruct (meta parsedTx); [|done].
  cbv zeta.
  destruct (leftoverAddresses _ _) as [|a l] eqn:Hl; [done|].
  rewrite bool_decide_eq_true_2 by (simpl; lia).
  unfold fetchMultipleTokenAccountInfos.
  destruct (forallb isPublicKey (a :: l));
    cbn [mbind Run_mbind Run_bind exec]; [|done].
  by destruct (getMultipleAccountsInfo conn (a :: l)).
Qed.

(** A run that returns has found the transaction; its output is the
    reconciliation of the gathered transfers. *)
Lemma returned_output signature includeSolTransfers out tr :
  exec conn
    (parseTransfersFromSignature isPublicKey toBase58 signature
       includeSolTransfers) = (Some out, tr) →
  out = [] ∨
  ∃ parsedTx,
    getParsedTransaction conn signature = Some (Some parsedTx) ∧
    is_Some (meta parsedTx) ∧
    forallb isPublicKey (addressesOf parsedTx includeSolTransfers) = true ∧
    out = reconcile (knownAfterFetch toBase58 conn parsedTx includeSolTransfers)
            (gatherTransfers parsedTx includeSolTransfers).
Proof.
  rewrite exec_parseTransfersFromSignature.
  destruct (getParsedTransaction conn signature) as [[parsedTx|]|];
    [|naive_solver..].
  destruct (meta parsedTx) eqn:Hm; [|naive_solver].
  cbv zeta.
  destruct (addressesOf parsedTx includeSolTransfers) as [|a l] eqn:Hl.
  - intros [= <- <-]. right. exists parsedTx. by rewrite Hl.
  - destruct (forallb isPublicKey (a :: l)) eqn:Hpk; [|done].
    destruct (getMultipleAccountsInfo conn (a :: l)); [|done].
    intros [= <- <-]. right. exists parsedTx. by rewrite Hl.
Qed.

End Runs.

Lemma reconcile_lookup `{JSNumbers} tokenAccountData transfers (i : nat) :
  reconcile tokenAccountData transfers !! i
  = (λ t, finish (fixMintDecimals tokenAccountData
                    (rewriteOwners tokenAccountData t)))
    <$> transfers !! i.
Proof.
  unfold reconcile. rewrite !list_lookup_fmap.
  by destruct (transfers !! i).
Qed.

(** ** The instruction decoder *)

Lemma jsor_given (a b : option string) :
  jsor a b = match given a with Some s => Some s | None => b end.
Proof. by destruct a as [[|]|]. Qed.

Lemma jsor_lit_given (a : option string) (d : string) :
  jsor_lit a d = match given a with Some s => s | None => d end.
Proof. by destruct a as [[|]|]. Qed.

Lemma jsor_lit_zero (a : option Z) : jsor_lit a 0 = default 0 a.
Proof.
  destruct a as [n|]; [|done]. unfold jsor_lit, truthy, Z_truthy. simpl.
  destruct (Z.eqb_spec n 0); simpl; congruence.
Qed.

Lemma tokenTransfer_described info :
  tokenTransfer info = describedTokenEvent info.
Proof.
  unfold tokenTransfer, describedTokenEvent.
  rewrite !jsor_lit_given, jsor_lit_zero, !jsor_given.
  f_equal; try done.
  by destruct (i_amount info) as [[|]|].
Qed.

(** C7. An instruction of type transfer, transferChecked or
    transferCheckedWithFee that carries a payload makes the decoder emit,
    first, the token event described above: source or else authority,
    destination, amount or nested amount or "0", mint or the sentinel,
    nested decimals or 0.  Whatever else the instruction yields is a
    native-currency event. *)
Theorem token_event_decoded ix type info includeSolTransfers :
  parsed ix = Some {| p_type := Some type; p_info := Some info |} →
  type ∈ ["transfer"; "transferChecked"; "transferCheckedWithFee"] →
  ∃ rest,
    parseInstructionTransfers ix includeSolTransfers
    = describedTokenEvent info :: rest
    ∧ Forall (λ t, t_mint t = SOL) rest.
Proof.
  intros Hp Hty. unfold parseInstructionTransfers. rewrite Hp.
  assert (truthy type = true ∧ isTokenTransferType type = true) as [-> ->].
  { set_unfold in Hty. destruct Hty as [->|[->|[->|[]]]]; by split. }
  rewrite tokenTransfer_described. simpl. eexists. split; [done|].
  apply Forall_app. split; repeat case_match; by repeat constructor.
Qed.

Lemma token_event_decoded_witness :
  ∃ rest,
    parseInstructionTransfers checkedIx true
    = {| t_from := Some "C1"; t_to := Some "C2"; t_mint := "MintX";
         t_amount := "1000000"; t_decimals := 6;
         t_rawFrom := Some "C1"; t_rawTo := Some "C2" |} :: rest
    ∧ Forall (λ t, t_mint t = SOL) rest.
Proof.
  apply (token_event_decoded checkedIx "transferChecked" checkedInfo true).
  - reflexivity.
  - set_solver.
Defined.

(** ** Backfill of mint and decimals *)

(** C2. Backfill is mint backfill followed by decimals backfill, each as
    described: a sentinel mint is replaced by the source container's mint,
    else the destination's, the chosen container's decimals (when present)
    replacing the event's; then decimals equal to 0 are replaced by the
    first strictly positive decimals of source, then destination.  An event
    with a concrete mint and nonzero decimals is returned unchanged. *)
Theorem backfill_as_described tokenAccountData t :
  let src := default noData (tokenAccountData !! key (t_rawFrom t)) in
  let dst := default noData (tokenAccountData !! key (t_rawTo t)) in
  fixMintDecimals tokenAccountData t
  = decimalsBackfill src dst (mintBackfill src dst t)
  ∧ (t_mint t ≠ UNKNOWN_MINT → t_decimals t ≠ 0 →
     fixMintDecimals tokenAccountData t = t).
Proof.
  intros src dst. split.
  - unfold fixMintDecimals, mintBackfill, decimalsBackfill, copyMint.
    fold src dst. generalize src dst. clear src dst.
    intros [[[|? ?]|] os [ns|]] [[[|? ?]|] od [nd|]].
    all: destruct t as [f to m am dec rf rt]; simpl.
    all: repeat (case_bool_decide; simpl);
      repeat (case_match; simpl); simplify_eq/=; try done; try lia.
  - intros Hm Hd. unfold fixMintDecimals.
    rewrite (bool_decide_eq_false_2 (t_mint t = UNKNOWN_MINT)) by done.
    by rewrite (bool_decide_eq_false_2 (t_decimals t = 0)) by done.
Qed.

Lemma backfill_as_described_witness :
  fixMintDecimals otherMintTable checkedEvent = checkedEvent.
Proof.
  apply (backfill_as_described otherMintTable checkedEvent).
  - vm_compute. discriminate.
  - vm_compute. discriminate.
Defined.

(** ** The tables *)

Lemma foldl_invariant {A B} (P : A → Prop) (f : A → B → A) (l : list B) a :
  (∀ a x, P a → P (f a x)) → P a → P (foldl f a l).
Proof. intros Hf. revert a. induction l; simpl; auto. Qed.

Lemma truthy_value_nonempty (a : option string) s :
  truthy_value a = Some s → a = Some s ∧ s ≠ "".
Proof.
  intros [-> Hs]%truthy_value_Some. by apply truthy_string_nonempty in Hs.
Qed.

Lemma truthy_strval (a : option string) :
  truthy a = true → a = Some (strval a) ∧ key a = strval a ∧ strval a ≠ "".
Proof.
  intros (s & -> & Hs)%truthy_option_Some.
  by apply truthy_string_nonempty in Hs.
Qed.

(** *** Static hints *)

Lemma handleIx_given map ix :
  map_Forall (λ k o, k ≠ "" ∧ o ≠ "") map →
  map_Forall (λ k o, k ≠ "" ∧ o ≠ "") (handleIx map ix).
Proof.
  intros Hmap. unfold handleIx.
  destruct (parsed ix) as [[[type|] [info|]]|]; try done.
  destruct (truthy type); simpl; [|done].
  destruct (String.prefix "initializeAccount" type
            && truthy (i_account info) && truthy (i_owner info)) eqn:Hinit.
  - apply andb_prop in Hinit as [[_ Ha]%andb_prop Ho].
    apply truthy_strval in Ha as (_ & -> & ?).
    apply truthy_strval in Ho as (_ & _ & ?).
    by apply map_Forall_insert_2.
  - destruct (String.prefix "create" type
              && truthy (jsor (i_account info) (i_newAccount info))
              && truthy (jsor (i_owner info) (i_wallet info))) eqn:Hcreate;
      [|done].
    apply andb_prop in Hcreate as [[_ Ha]%andb_prop Ho].
    apply truthy_strval in Ha as (_ & -> & ?).
    apply truthy_strval in Ho as (_ & _ & ?).
    by apply map_Forall_insert_2.
Qed.

Lemma hints_given parsedTx :
  map_Forall (λ k o, k ≠ "" ∧ o ≠ "")
    (buildTokenAccountMapFromInstructions parsedTx).
Proof.
  unfold buildTokenAccountMapFromInstructions.
  apply foldl_invariant; [apply handleIx_given|apply map_Forall_empty].
Qed.

(** *** Balance snapshots *)

Lemma set_fields_given e :
  entryGiven e →
  (∀ m, m ≠ "" → entryGiven (set_mint m e))
  ∧ (∀ o, o ≠ "" → entryGiven (set_owner o e))
  ∧ (∀ n, entryGiven (set_decimals n e)).
Proof.
  intros [Ho Hm]. repeat split; simpl; try done; congruence.
Qed.

Lemma noData_given : entryGiven noData.
Proof. by split. Qed.

Lemma default_given (m : gmap string AccountData) k :
  fieldsGiven m → entryGiven (default noData (m !! k)).
Proof.
  intros Hm. destruct (m !! k) as [e|] eqn:He; simpl.
  - by apply (Hm k).
  - apply noData_given.
Qed.

Lemma gatherOne_given keys map b :
  fieldsGiven map ∧ keysGiven map →
  fieldsGiven (gatherOne keys map b) ∧ keysGiven (gatherOne keys map b).
Proof.
  intros [Hf Hk]. unfold gatherOne.
  destruct (b_accountIndex b) as [i|]; [|done].
  destruct (truthy_value _) as [acct|] eqn:Hacct; [|done].
  apply truthy_value_nonempty in Hacct as [_ Hacct].
  split; [|by apply map_Forall_insert_2].
  apply map_Forall_insert_2; [|done].
  pose proof (default_given map acct Hf) as He0.
  destruct (truthy_value (b_mint b)) as [m|] eqn:Hm.
  all: destruct (truthy_value (b_owner b)) as [o|] eqn:Ho.
  all: destruct (b_uiTokenAmount b ≫= uta_decimals) as [n|].
  all: repeat match goal with
         | H : truthy_value _ = Some _ |- _ =>
           apply truthy_value_nonempty in H as [_ H]
         end.
  all: repeat first
         [ done
         | apply set_fields_given; [|done]
         | apply set_fields_given ].
Qed.

Lemma snapshots_given parsedTx :
  fieldsGiven (buildTokenAccountMapFromBalances parsedTx)
  ∧ keysGiven (buildTokenAccountMapFromBalances parsedTx).
Proof.
  unfold buildTokenAccountMapFromBalances, gather.
  apply (foldl_invariant (λ m, fieldsGiven m ∧ keysGiven m));
    [apply gatherOne_given|].
  apply (foldl_invariant (λ m, fieldsGiven m ∧ keysGiven m));
    [apply gatherOne_given|].
  split; apply map_Forall_empty.
Qed.

(** *** The overlay of the static hints *)

Lemma foldr_overlayOwner_lookup (l : list (string * string))
    (balMap : gmap string AccountData) (a : string) :
  NoDup l.*1 →
  foldr (uncurry (λ acct owner tokenAccountData,
                    overlayOwner tokenAccountData acct owner)) balMap l !! a
  = match (list_to_map l : gmap string string) !! a with
    | Some owner => Some (set_owner owner (default noData (balMap !! a)))
    | None => balMap !! a
    end.
Proof.
  induction l as [|[k o] l IH]; intros Hnd; simpl.
  - by rewrite lookup_empty.
  - apply NoDup_cons in Hnd as [Hk Hnd]. unfold overlayOwner at 1.
    destruct (decide (k = a)) as [->|Hne].
    + rewrite !lookup_insert_eq, IH by done.
      by rewrite (not_elem_of_list_to_map_1 _ _ Hk).
    + rewrite !lookup_insert_ne by done. by apply IH.
Qed.

Lemma unify_lookup balMap ixMap (a : string) :
  unify balMap ixMap !! a
  = match ixMap !! a with
    | Some owner => Some (set_owner owner (default noData (balMap !! a)))
    | None => balMap !! a
    end.
Proof.
  unfold unify. rewrite map_fold_foldr.
  rewrite foldr_overlayOwner_lookup by apply NoDup_fst_map_to_list.
  by rewrite list_to_map_to_list.
Qed.

(** C3. Before any network access, every container that has a static hint
    carries the hint's owner in the table, whatever owner the balance
    snapshots recorded for it, and its mint and decimals are exactly those
    the snapshots recorded (none when the snapshots do not mention it). *)
Theorem hint_owner_overrides_snapshot parsedTx (container hint : string) :
  buildTokenAccountMapFromInstructions parsedTx !! container = Some hint →
  ∃ e,
    knownBeforeFetch parsedTx !! container = Some e
    ∧ d_owner e = Some hint
    ∧ d_mint e
      = buildTokenAccountMapFromBalances parsedTx !! container ≫= d_mint
    ∧ d_decimals e
      = buildTokenAccountMapFromBalances parsedTx !! container ≫= d_decimals.
Proof.
  intros Hhint. unfold knownBeforeFetch. rewrite unify_lookup, Hhint.
  eexists. split; [done|].
  by destruct (buildTokenAccountMapFromBalances parsedTx !! container).
Qed.

Lemma hint_owner_overrides_snapshot_witness :
  ∃ e,
    knownBeforeFetch sampleTx !! "C1" = Some e
    ∧ d_owner e = Some "OwnerA"
    ∧ d_mint e
      = buildTokenAccountMapFromBalances sampleTx !! "C1" ≫= d_mint
    ∧ d_decimals e
      = buildTokenAccountMapFromBalances sampleTx !! "C1" ≫= d_decimals.
Proof.
  apply (hint_owner_overrides_snapshot sampleTx "C1" "OwnerA").
  vm_compute. reflexivity.
Defined.

Example snapshot_owner_differs :
  buildTokenAccountMapFromBalances sampleTx !! "C1" ≫= d_owner
  = Some "OwnerB".
Proof. vm_compute. reflexivity. Qed.

Lemma unify_given balMap ixMap :
  fieldsGiven balMap → map_Forall (λ k o, k ≠ "" ∧ o ≠ "") ixMap →
  fieldsGiven (unify balMap ixMap).
Proof.
  intros Hb Hi k e. rewrite unify_lookup.
  destruct (ixMap !! k) as [o|] eqn:Ho.
  - intros [= <-]. apply set_fields_given; [by apply default_given|].
    by apply (Hi k o).
  - apply Hb.
Qed.

Lemma unify_keys_given balMap ixMap :
  keysGiven balMap → map_Forall (λ k o, k ≠ "" ∧ o ≠ "") ixMap →
  keysGiven (unify balMap ixMap).
Proof.
  intros Hb Hi k e. rewrite unify_lookup.
  destruct (ixMap !! k) as [o|] eqn:Ho.
  - intros _. by apply (Hi k o).
  - apply Hb.
Qed.

Lemma knownBeforeFetch_given parsedTx :
  fieldsGiven (knownBeforeFetch parsedTx)
  ∧ keysGiven (knownBeforeFetch parsedTx).
Proof.
  destruct (snapshots_given parsedTx) as [Hf Hk].
  pose proof (hints_given parsedTx) as Hi. unfold knownBeforeFetch.
  split; [by apply unify_given|by apply unify_keys_given].
Qed.

(** *** The merge of the fetched accounts *)

Lemma mergeCached_idemp cached e :
  mergeCached cached (mergeCached cached e) = mergeCached cached e.
Proof.
  unfold mergeCached.
  destruct (truthy_value (cached ≫= c_owner)),
    (truthy_value (cached ≫= c_mint)); by destruct e.
Qed.

Lemma incorporate_lookup onChainCache tokenAccountData addressesToFetch
    (k : string) :
  incorporate onChainCache tokenAccountData addressesToFetch !! k
  = if decide (k ∈ key <$> addressesToFetch)
    then Some (mergeCached (onChainCache !! k)
                 (default noData (tokenAccountData !! k)))
    else tokenAccountData !! k.
Proof.
  unfold incorporate. revert tokenAccountData.
  induction addressesToFetch as [|a l IH]; intros kb; [done|].
  rewrite fmap_cons. cbn [foldl]. rewrite IH. unfold incorporateOne.
  destruct (decide (key a = k)) as [<-|Hne].
  - rewrite lookup_insert_eq. simpl. rewrite mergeCached_idemp.
    rewrite (decide_True (P := key a ∈ key a :: _)) by apply list_elem_of_here.
    by case_decide.
  - rewrite lookup_insert_ne by done.
    destruct (decide (k ∈ key <$> l)) as [Hin|Hnin].
    + by rewrite decide_True by by apply list_elem_of_further.
    + rewrite decide_False; [done|].
      by intros [?|?]%elem_of_cons.
Qed.

Lemma mergeCached_given cached e :
  entryGiven e → entryGiven (mergeCached cached e).
Proof.
  intros He. unfold mergeCached.
  destruct (truthy_value (cached ≫= c_owner)) as [o|] eqn:Ho,
    (truthy_value (cached ≫= c_mint)) as [m|] eqn:Hm.
  all: repeat match goal with
         | H : truthy_value _ = Some _ |- _ =>
           apply truthy_value_nonempty in H as [_ H]
         end.
  all: repeat first [ done | apply set_fields_given; [|done] ].
Qed.

Lemma incorporate_given onChainCache tokenAccountData addressesToFetch :
  fieldsGiven tokenAccountData →
  fieldsGiven (incorporate onChainCache tokenAccountData addressesToFetch).
Proof.
  intros Hf k e. rewrite incorporate_lookup. case_decide.
  - intros [= <-]. by apply mergeCached_given, default_given.
  - apply Hf.
Qed.

Lemma knownAfterFetch_given toBase58 conn parsedTx includeSolTransfers :
  fieldsGiven (knownAfterFetch toBase58 conn parsedTx includeSolTransfers).
Proof. apply incorporate_given, knownBeforeFetch_given. Qed.

(** ** Nothing known is erased *)

Lemma keepsKnown_refl m : keepsKnown m m.
Proof. intros a e He. by exists e. Qed.

Lemma keepsKnown_trans m1 m2 m3 :
  keepsKnown m1 m2 → keepsKnown m2 m3 → keepsKnown m1 m3.
Proof.
  intros H12 H23 a e He.
  destruct (H12 a e He) as (e2 & He2 & Ho2 & Hm2).
  destruct (H23 a e2 He2) as (e3 & He3 & Ho3 & Hm3).
  exists e3. naive_solver.
Qed.

Lemma foldl_keepsKnown {B} (f : gmap string AccountData → B → _) l m :
  (∀ m x, keepsKnown m (f m x)) → keepsKnown m (foldl f m l).
Proof.
  intros Hf. revert m. induction l as [|x l IH]; intros m; simpl.
  - apply keepsKnown_refl.
  - eapply keepsKnown_trans; [apply Hf|apply IH].
Qed.

Lemma gatherOne_keepsKnown keys map b : keepsKnown map (gatherOne keys map b).
Proof.
  unfold gatherOne.
  destruct (b_accountIndex b) as [i|]; [|apply keepsKnown_refl].
  destruct (truthy_value _) as [acct|]; [|apply keepsKnown_refl].
  intros a e He. destruct (decide (acct = a)) as [->|Hne].
  - rewrite lookup_insert_eq, He. eexists. split; [done|]. simpl.
    destruct (truthy_value (b_mint b)), (truthy_value (b_owner b)),
      (b_uiTokenAmount b ≫= uta_decimals); simpl; split; eauto.
  - rewrite lookup_insert_ne by done. by exists e.
Qed.

Lemma unify_keepsKnown balMap ixMap : keepsKnown balMap (unify balMap ixMap).
Proof.
  intros a e He. rewrite unify_lookup, He.
  destruct (ixMap !! a); eexists; (split; [done|]); simpl; eauto.
Qed.

Lemma mergeCached_fields cached e :
  d_owner (mergeCached cached e)
  = match truthy_value (cached ≫= c_owner) with
    | Some o => Some o | None => d_owner e end
  ∧ d_mint (mergeCached cached e)
    = match truthy_value (cached ≫= c_mint) with
      | Some m => Some m | None => d_mint e end
  ∧ d_decimals (mergeCached cached e) = d_decimals e.
Proof.
  unfold mergeCached.
  by destruct (truthy_value (cached ≫= c_owner)),
    (truthy_value (cached ≫= c_mint)).
Qed.

Lemma incorporate_keepsKnown onChainCache tokenAccountData addressesToFetch :
  keepsKnown tokenAccountData
    (incorporate onChainCache tokenAccountData addressesToFetch).
Proof.
  intros a e He. rewrite incorporate_lookup, He. case_decide.
  - eexists. split; [done|]. simpl.
    destruct (mergeCached_fields (onChainCache !! a) e) as (-> & -> & _).
    split; case_match; eauto.
  - by exists e.
Qed.

(** C9. No merge step erases what is known.  Gathering the balance
    snapshots, overlaying the static hints and merging the fetched accounts
    each leave every entry in place with an owner if it had one and a mint
    if it had one.  In the last step a field that the lookup returned as
    null (or did not return) keeps exactly the value it had. *)
Theorem known_fields_never_erased :
  (∀ keys map balArr, keepsKnown map (gather keys map balArr))
  ∧ (∀ balMap ixMap, keepsKnown balMap (unify balMap ixMap))
  ∧ (∀ onChainCache tokenAccountData addressesToFetch,
       keepsKnown tokenAccountData
         (incorporate onChainCache tokenAccountData addressesToFetch))
  ∧ (∀ onChainCache tokenAccountData addressesToFetch (a : string) e,
       tokenAccountData !! a = Some e →
       ∃ e',
         incorporate onChainCache tokenAccountData addressesToFetch !! a
         = Some e'
         ∧ (onChainCache !! a ≫= c_owner = None → d_owner e' = d_owner e)
         ∧ (onChainCache !! a ≫= c_mint = None → d_mint e' = d_mint e)).
Proof.
  split; [|split; [|split]].
  - intros. apply foldl_keepsKnown, gatherOne_keepsKnown.
  - apply unify_keepsKnown.
  - apply incorporate_keepsKnown.
  - intros cache kb l a e He. rewrite incorporate_lookup, He. case_decide.
    + eexists. split; [done|]. simpl.
      destruct (mergeCached_fields (cache !! a) e) as (-> & -> & _).
      split; by intros ->.
    + by exists e.
Qed.

Lemma known_fields_never_erased_witness :
  ∃ e',
    incorporate nothingAtC1 (knownBeforeFetch sampleTx) [Some "C1"] !! "C1"
    = Some e'
    ∧ (nothingAtC1 !! "C1" ≫= c_owner = None →
       d_owner e' = d_owner knownC1)
    ∧ (nothingAtC1 !! "C1" ≫= c_mint = None → d_mint e' = d_mint knownC1).
Proof.
  apply (proj2 (proj2 (proj2 known_fields_never_erased))
           nothingAtC1 (knownBeforeFetch sampleTx) [Some "C1"] "C1" knownC1).
  vm_compute. reflexivity.
Defined.

(** ** The addresses to fetch *)

Lemma elem_of_Set_add (a x : addr) s : a ∈ Set_add x s ↔ a = x ∨ a ∈ s.
Proof.
  unfold Set_add. case_decide as Hx.
  - split; [by right|]. by intros [->|?].
  - rewrite elem_of_app, list_elem_of_singleton. tauto.
Qed.

Lemma NoDup_Set_add (x : addr) s : NoDup s → NoDup (Set_add x s).
Proof.
  intros Hs. unfold Set_add. case_decide as Hx; [done|].
  apply NoDup_app. split; [done|]. split; [|apply NoDup_singleton].
  intros y Hy ->%list_elem_of_singleton. done.
Qed.

Lemma foldl_transfers_endpoints tokenAccountData transfers acc :
  foldl (λ addressesToFetch t,
           foldl (noteAddress tokenAccountData) addressesToFetch
             [t_rawFrom t; t_rawTo t]) acc transfers
  = foldl (noteAddress tokenAccountData) acc (endpoints transfers).
Proof.
  unfold endpoints. revert acc.
  induction transfers as [|t l IH]; intros acc; [done|].
  cbn [foldl]. rewrite IH. by rewrite bind_cons, foldl_app.
Qed.

Lemma leftoverAddresses_endpoints tokenAccountData transfers :
  leftoverAddresses tokenAccountData transfers
  = foldl (noteAddress tokenAccountData) [] (endpoints transfers).
Proof. apply foldl_transfers_endpoints. Qed.

Lemma foldl_noteAddress tokenAccountData l acc :
  NoDup acc →
  NoDup (foldl (noteAddress tokenAccountData) acc l)
  ∧ ∀ a, a ∈ foldl (noteAddress tokenAccountData) acc l
         ↔ a ∈ acc ∨ (a ∈ l ∧ needsFetch tokenAccountData a = true).
Proof.
  revert acc. induction l as [|x l IH]; intros acc Hacc; cbn [foldl].
  - split; [done|]. intros a. split; [by left|].
    intros [?|[[]%elem_of_nil _]]; done.
  - assert (NoDup (noteAddress tokenAccountData acc x)) as Hnd.
    { unfold noteAddress. case_match; [by apply NoDup_Set_add|done]. }
    destruct (IH _ Hnd) as [Hnd' Hin]. split; [done|].
    intros a. rewrite Hin, elem_of_cons. unfold noteAddress.
    destruct (needsFetch tokenAccountData x) eqn:Hx.
    + rewrite elem_of_Set_add. intuition (subst; auto).
    + intuition (subst; auto; congruence).
Qed.

Lemma needsFetch_unresolved tokenAccountData a :
  fieldsGiven tokenAccountData →
  needsFetch tokenAccountData a = true ↔ unresolved tokenAccountData a.
Proof.
  intros Hf. unfold needsFetch, unresolved.
  destruct (tokenAccountData !! key a) as [e|] eqn:He; [|done].
  destruct (Hf _ _ He) as [Ho _].
  rewrite orb_true_iff, negb_true_iff, bool_decide_eq_true.
  destruct (d_owner e) as [[|c o]|]; naive_solver.
Qed.

Lemma elem_of_endpoints a transfers :
  a ∈ endpoints transfers
  ↔ ∃ t, t ∈ transfers ∧ (a = t_rawFrom t ∨ a = t_rawTo t).
Proof.
  unfold endpoints. rewrite list_elem_of_bind.
  split; intros (t & H1 & H2); exists t.
  - set_unfold in H1. naive_solver.
  - split; [|done]. set_unfold. naive_solver.
Qed.

Lemma addressesOf_spec parsedTx includeSolTransfers :
  NoDup (addressesOf parsedTx includeSolTransfers)
  ∧ ∀ a, a ∈ addressesOf parsedTx includeSolTransfers
         ↔ (∃ t, t ∈ gatherTransfers parsedTx includeSolTransfers
                 ∧ (a = t_rawFrom t ∨ a = t_rawTo t))
           ∧ unresolved (knownBeforeFetch parsedTx) a.
Proof.
  unfold addressesOf. rewrite leftoverAddresses_endpoints.
  destruct (foldl_noteAddress (knownBeforeFetch parsedTx)
              (endpoints (gatherTransfers parsedTx includeSolTransfers)) [])
    as [Hnd Hin]; [constructor|].
  split; [done|]. intros a. rewrite Hin, elem_of_endpoints.
  rewrite needsFetch_unresolved by apply knownBeforeFetch_given.
  split; [|naive_solver]. intros [[]%elem_of_nil|?]; done.
Qed.

(** C4. When the transaction is found, the addresses of the run are the
    source and destination addresses of the raw transfers that are
    unresolved in the table built without the network, each once.  With no
    such address the run issues no batched lookup; otherwise, the addresses
    being well-formed keys, it issues exactly one, for that list.  No run
    issues more than one. *)
Theorem one_batched_lookup `{JSNumbers} isPublicKey toBase58 conn signature
    includeSolTransfers parsedTx :
  getParsedTransaction conn signature = Some (Some parsedTx) →
  is_Some (meta parsedTx) →
  let tokenAccountData := knownBeforeFetch parsedTx in
  let transfers := gatherTransfers parsedTx includeSolTransfers in
  let addressesToFetch := addressesOf parsedTx includeSolTransfers in
  let requests :=
    (exec conn (parseTransfersFromSignature isPublicKey toBase58 signature
                  includeSolTransfers)).2 in
  NoDup addressesToFetch
  ∧ (∀ a, a ∈ addressesToFetch
          ↔ (∃ t, t ∈ transfers ∧ (a = t_rawFrom t ∨ a = t_rawTo t))
            ∧ unresolved tokenAccountData a)
  ∧ (addressesToFetch = [] → filter isBatchedLookup requests = [])
  ∧ (addressesToFetch ≠ [] →
     forallb isPublicKey addressesToFetch = true →
     filter isBatchedLookup requests
     = [ReqMultipleAccountsInfo addressesToFetch])
  ∧ (length (filter isBatchedLookup requests) ≤ 1)%nat.
Proof.
  intros Htx [m Hm]. cbv zeta.
  destruct (addressesOf_spec parsedTx includeSolTransfers) as [Hnd Hin].
  split; [done|]. split; [done|].
  rewrite exec_parseTransfersFromSignature, Htx, Hm. cbv zeta.
  destruct (addressesOf parsedTx includeSolTransfers) as [|a l].
  { split; [done|]. split; [done|]. cbn. case_decide; cbn; lia. }
  destruct (forallb isPublicKey (a :: l)); cbn;
    repeat case_decide; try done; cbn; repeat split; try done; lia.
Qed.

Lemma one_batched_lookup_witness :
  NoDup (addressesOf sampleTx true)
  ∧ (∀ a, a ∈ addressesOf sampleTx true
          ↔ (∃ t, t ∈ gatherTransfers sampleTx true
                  ∧ (a = t_rawFrom t ∨ a = t_rawTo t))
            ∧ unresolved (knownBeforeFetch sampleTx) a)
  ∧ (addressesOf sampleTx true = [] →
     filter isBatchedLookup (sampleRun "sig1").2 = [])
  ∧ (addressesOf sampleTx true ≠ [] →
     forallb sampleIsPublicKey (addressesOf sampleTx true) = true →
     filter isBatchedLookup (sampleRun "sig1").2
     = [ReqMultipleAccountsInfo (addressesOf sampleTx true)])
  ∧ (length (filter isBatchedLookup (sampleRun "sig1").2) ≤ 1)%nat.
Proof.
  apply (one_batched_lookup (H := sampleNumbers) sampleIsPublicKey
           sampleBase58 sampleConn "sig1" true sampleTx).
  - reflexivity.
  - by eexists.
Defined.

Example sample_addresses : addressesOf sampleTx true = [Some "C2"].
Proof. vm_compute. reflexivity. Qed.

(** ** What the passes change in a transfer *)

Lemma decoded_endpoints_raw ix includeSolTransfers t :
  t ∈ parseInstructionTransfers ix includeSolTransfers →
  t_from t = t_rawFrom t ∧ t_to t = t_rawTo t.
Proof.
  unfold parseInstructionTransfers.
  destruct (parsed ix) as [[[type|] [info|]]|];
    try by intros []%elem_of_nil.
  destruct (truthy type); simpl; [|by intros []%elem_of_nil].
  rewrite !elem_of_app. intros [Ht|[Ht|Ht]]; revert Ht; case_match;
    try (by intros []%elem_of_nil); by intros ->%list_elem_of_singleton.
Qed.

Lemma gathered_endpoints_raw parsedTx includeSolTransfers t :
  t ∈ gatherTransfers parsedTx includeSolTransfers →
  t_from t = t_rawFrom t ∧ t_to t = t_rawTo t.
Proof.
  unfold gatherTransfers. intros (ix & Ht & _)%list_elem_of_bind.
  by eapply decoded_endpoints_raw.
Qed.

Lemma rewriteOwners_frame tokenAccountData t :
  t_rawFrom (rewriteOwners tokenAccountData t) = t_rawFrom t
  ∧ t_rawTo (rewriteOwners tokenAccountData t) = t_rawTo t
  ∧ t_mint (rewriteOwners tokenAccountData t) = t_mint t
  ∧ t_amount (rewriteOwners tokenAccountData t) = t_amount t
  ∧ t_decimals (rewriteOwners tokenAccountData t) = t_decimals t.
Proof. unfold rewriteOwners. by repeat case_match. Qed.

Lemma fixMintDecimals_frame tokenAccountData t :
  t_rawFrom (fixMintDecimals tokenAccountData t) = t_rawFrom t
  ∧ t_rawTo (fixMintDecimals tokenAccountData t) = t_rawTo t
  ∧ t_from (fixMintDecimals tokenAccountData t) = t_from t
  ∧ t_to (fixMintDecimals tokenAccountData t) = t_to t
  ∧ t_amount (fixMintDecimals tokenAccountData t) = t_amount t.
Proof.
  unfold fixMintDecimals, copyMint. by repeat (case_match; simpl).
Qed.

Lemma rewriteOwners_displayed tokenAccountData t :
  fieldsGiven tokenAccountData →
  t_from t = t_rawFrom t → t_to t = t_rawTo t →
  t_from (rewriteOwners tokenAccountData t)
  = displayedOwner tokenAccountData (t_rawFrom t)
  ∧ t_to (rewriteOwners tokenAccountData t)
    = displayedOwner tokenAccountData (t_rawTo t).
Proof.
  intros Hf Hfrom Hto. unfold rewriteOwners, displayedOwner.
  destruct (tokenAccountData !! key (t_rawFrom t)) as [[mf [[|c o]|] df]|]
    eqn:Hfd;
  destruct (tokenAccountData !! key (t_rawTo t)) as [[mt [[|c' o']|] dt]|]
    eqn:Htd.
  all: try (by destruct (Hf _ _ Hfd) as [[] _]).
  all: try (by destruct (Hf _ _ Htd) as [[] _]).
  all: by simpl.
Qed.

Lemma displayedOwner_nonempty tokenAccountData a :
  fieldsGiven tokenAccountData →
  a ≠ Some "" → displayedOwner tokenAccountData a ≠ Some "".
Proof.
  intros Hf Ha. unfold displayedOwner.
  destruct (tokenAccountData !! key a) as [[m [o|] d]|] eqn:He; try done.
  destruct (Hf _ _ He) as [Ho _]. done.
Qed.

(** A run that gets past the construction of the public keys has no empty
    address among its endpoints, when the empty string is not a key. *)
Lemma endpoints_nonempty isPublicKey parsedTx includeSolTransfers t :
  isPublicKey (Some "") = false →
  forallb isPublicKey (addressesOf parsedTx includeSolTransfers) = true →
  t ∈ gatherTransfers parsedTx includeSolTransfers →
  t_rawFrom t ≠ Some "" ∧ t_rawTo t ≠ Some "".
Proof.
  intros Hpk Hall Ht.
  assert (∀ a, (a = t_rawFrom t ∨ a = t_rawTo t) → a ≠ Some "") as Hne.
  { intros a Ha ->.
    assert (Some "" ∈ addressesOf parsedTx includeSolTransfers) as Hin.
    { apply addressesOf_spec. split; [by exists t|].
      unfold unresolved.
      destruct (knownBeforeFetch parsedTx !! key (Some "")) eqn:He; [|done].
      by destruct (proj2 (knownBeforeFetch_given parsedTx) _ _ He). }
    rewrite forallb_forall in Hall.
    apply list_elem_of_In, Hall in Hin. congruence. }
  split; apply Hne; auto.
Qed.

Lemma output_record `{JSNumbers} isPublicKey toBase58 conn signature
    includeSolTransfers out tr (i : nat) r :
  exec conn (parseTransfersFromSignature isPublicKey toBase58 signature
               includeSolTransfers) = (Some out, tr) →
  out !! i = Some r →
  ∃ parsedTx t,
    getParsedTransaction conn signature = Some (Some parsedTx)
    ∧ forallb isPublicKey (addressesOf parsedTx includeSolTransfers) = true
    ∧ gatherTransfers parsedTx includeSolTransfers !! i = Some t
    ∧ let kb := knownAfterFetch toBase58 conn parsedTx includeSolTransfers in
      r = finish (fixMintDecimals kb (rewriteOwners kb t)).
Proof.
  intros [->|(parsedTx & Htx & _ & Hpk & ->)]%returned_output Hr; [done|].
  rewrite reconcile_lookup in Hr.
  destruct (gatherTransfers parsedTx includeSolTransfers !! i) as [t|] eqn:Ht;
    [|done].
  injection Hr as <-. by exists parsedTx, t.
Qed.

(** ** The sample runs *)

Example sampleRun_sig1 :
  sampleRun "sig1"
  = (Some [plainRecord; checkedRecord],
     [ReqParsedTransaction "sig1"; ReqMultipleAccountsInfo [Some "C2"]]).
Proof. vm_compute. reflexivity. Qed.

Example sampleRun_sig2 :
  sampleRun "sig2"
  = (Some [bareRecord],
     [ReqParsedTransaction "sig2";
      ReqMultipleAccountsInfo [Some addressA; Some addressB]]).
Proof. vm_compute. reflexivity. Qed.

Example sampleRun_unknown_signature :
  sampleRun "sig3" = (Some [], [ReqParsedTransaction "sig3"]).
Proof. vm_compute. reflexivity. Qed.

(** ** The displayed endpoints *)

(** C1. In every record a run returns, the displayed source is the owner
    the final table holds for the source container when that entry exists
    and has an owner, and the raw source address of the instruction
    otherwise; likewise for the destination.  A displayed endpoint is never
    the empty string: an owner on record is never empty, and a raw address
    is displayed as given (an empty one does not pass the construction of
    the public keys). *)
Theorem displayed_owner_resolved `{JSNumbers} isPublicKey toBase58 conn
    signature includeSolTransfers out tr (i : nat) r :
  exec conn (parseTransfersFromSignature isPublicKey toBase58 signature
               includeSolTransfers) = (Some out, tr) →
  out !! i = Some r →
  ∃ parsedTx t,
    getParsedTransaction conn signature = Some (Some parsedTx)
    ∧ gatherTransfers parsedTx includeSolTransfers !! i = Some t
    ∧ fromUserAccount r
      = displayedOwner
          (knownAfterFetch toBase58 conn parsedTx includeSolTransfers)
          (t_rawFrom t)
    ∧ toUserAccount r
      = displayedOwner
          (knownAfterFetch toBase58 conn parsedTx includeSolTransfers)
          (t_rawTo t)
    ∧ (t_rawFrom t ≠ Some "" → fromUserAccount r ≠ Some "")
    ∧ (t_rawTo t ≠ Some "" → toUserAccount r ≠ Some "")
    ∧ (isPublicKey (Some "") = false →
       fromUserAccount r ≠ Some "" ∧ toUserAccount r ≠ Some "").
Proof.
  intros Hrun Hr.
  destruct (output_record _ _ _ _ _ _ _ _ _ Hrun Hr)
    as (parsedTx & t & Htx & Hpk & Ht & ->).
  exists parsedTx, t. split; [done|]. split; [done|].
  set (kb := knownAfterFetch toBase58 conn parsedTx includeSolTransfers).
  assert (fieldsGiven kb) as Hkb by apply knownAfterFetch_given.
  assert (t ∈ gatherTransfers parsedTx includeSolTransfers) as Hin
    by by eapply list_elem_of_lookup_2.
  destruct (gathered_endpoints_raw _ _ _ Hin) as [Hfrom Hto].
  destruct (rewriteOwners_displayed kb t Hkb Hfrom Hto) as [Hf' Ht'].
  destruct (fixMintDecimals_frame kb (rewriteOwners kb t))
    as (_ & _ & Hff & Hft & _).
  cbn [finish fromUserAccount toUserAccount].
  rewrite Hff, Hft, Hf', Ht'.
  split; [done|]. split; [done|].
  split; [by apply displayedOwner_nonempty|].
  split; [by apply displayedOwner_nonempty|].
  intros Hempty.
  destruct (endpoints_nonempty _ _ _ _ Hempty Hpk Hin).
  split; by apply displayedOwner_nonempty.
Qed.

Lemma displayed_owner_resolved_witness :
  ∃ parsedTx t,
    getParsedTransaction sampleConn "sig1" = Some (Some parsedTx)
    ∧ gatherTransfers parsedTx true !! 0%nat = Some t
    ∧ fromUserAccount plainRecord
      = displayedOwner (knownAfterFetch sampleBase58 sampleConn parsedTx true)
          (t_rawFrom t)
    ∧ toUserAccount plainRecord
      = displayedOwner (knownAfterFetch sampleBase58 sampleConn parsedTx true)
          (t_rawTo t)
    ∧ (t_rawFrom t ≠ Some "" → fromUserAccount plainRecord ≠ Some "")
    ∧ (t_rawTo t ≠ Some "" → toUserAccount plainRecord ≠ Some "")
    ∧ (sampleIsPublicKey (Some "") = false →
       fromUserAccount plainRecord ≠ Some ""
       ∧ toUserAccount plainRecord ≠ Some "").
Proof.
  apply (displayed_owner_resolved (H := sampleNumbers) sampleIsPublicKey
           sampleBase58 sampleConn "sig1" true [plainRecord; checkedRecord]
           [ReqParsedTransaction "sig1"; ReqMultipleAccountsInfo [Some "C2"]]
           0%nat plainRecord).
  - vm_compute. reflexivity.
  - reflexivity.
Defined.

(** ** The raw container addresses *)

(** C10. The token-account fields of every returned record are the raw
    source and destination addresses the decoder captured for the event;
    the decoder starts the displayed endpoints from those same addresses.
    Owner resolution changes nothing but the displayed endpoints, and
    backfill nothing but mint and decimals: neither touches the raw
    addresses. *)
Theorem raw_addresses_preserved `{JSNumbers} isPublicKey toBase58 conn
    signature includeSolTransfers out tr (i : nat) r :
  exec conn (parseTransfersFromSignature isPublicKey toBase58 signature
               includeSolTransfers) = (Some out, tr) →
  out !! i = Some r →
  (∃ parsedTx t,
     getParsedTransaction conn signature = Some (Some parsedTx)
     ∧ gatherTransfers parsedTx includeSolTransfers !! i = Some t
     ∧ fromTokenAccount r = t_rawFrom t
     ∧ toTokenAccount r = t_rawTo t
     ∧ t_from t = t_rawFrom t
     ∧ t_to t = t_rawTo t)
  ∧ (∀ tokenAccountData t,
       let t' := rewriteOwners tokenAccountData t in
       t_rawFrom t' = t_rawFrom t ∧ t_rawTo t' = t_rawTo t
       ∧ t_mint t' = t_mint t ∧ t_amount t' = t_amount t
       ∧ t_decimals t' = t_decimals t)
  ∧ (∀ tokenAccountData t,
       let t' := fixMintDecimals tokenAccountData t in
       t_rawFrom t' = t_rawFrom t ∧ t_rawTo t' = t_rawTo t
       ∧ t_from t' = t_from t ∧ t_to t' = t_to t
       ∧ t_amount t' = t_amount t).
Proof.
  intros Hrun Hr.
  split; [|split; [apply rewriteOwners_frame|apply fixMintDecimals_frame]].
  destruct (output_record _ _ _ _ _ _ _ _ _ Hrun Hr)
    as (parsedTx & t & Htx & Hpk & Ht & ->).
  exists parsedTx, t. split; [done|]. split; [done|].
  set (kb := knownAfterFetch toBase58 conn parsedTx includeSolTransfers).
  assert (t ∈ gatherTransfers parsedTx includeSolTransfers) as Hin
    by by eapply list_elem_of_lookup_2.
  destruct (gathered_endpoints_raw _ _ _ Hin) as [Hfrom Hto].
  destruct (fixMintDecimals_frame kb (rewriteOwners kb t))
    as (Hrf & Hrt & _).
  destruct (rewriteOwners_frame kb t) as (Hrf' & Hrt' & _).
  cbn [finish fromTokenAccount toTokenAccount].
  by rewrite Hrf, Hrt, Hrf', Hrt'.
Qed.

Lemma raw_addresses_preserved_witness :
  ∃ parsedTx t,
    getParsedTransaction sampleConn "sig1" = Some (Some parsedTx)
    ∧ gatherTransfers parsedTx true !! 1%nat = Some t
    ∧ fromTokenAccount checkedRecord = t_rawFrom t
    ∧ toTokenAccount checkedRecord = t_rawTo t
    ∧ t_from t = t_rawFrom t
    ∧ t_to t = t_rawTo t.
Proof.
  apply (raw_addresses_preserved (H := sampleNumbers) sampleIsPublicKey
           sampleBase58 sampleConn "sig1" true [plainRecord; checkedRecord]
           [ReqParsedTransaction "sig1"; ReqMultipleAccountsInfo [Some "C2"]]
           1%nat checkedRecord).
  - vm_compute. reflexivity.
  - reflexivity.
Defined.

(** ** The fetched accounts *)

Lemma omap_lookup_seq {A} (data : list A) (n lo : nat) :
  (lo + n ≤ length data)%nat →
  omap (λ i, data !! i) (seq lo n) = take n (drop lo data).
Proof.
  revert lo. induction n as [|n IH]; intros lo Hlen; [done|].
  destruct (lookup_lt_is_Some_2 data lo) as [x Hx]; [lia|].
  cbn [seq omap list_omap]. rewrite Hx.
  rewrite (drop_S _ _ _ Hx). cbn [take]. f_equal. apply IH. lia.
Qed.

Lemma bytesRange_subarray {A} (lo hi : nat) (data : list A) :
  (lo ≤ hi ≤ length data)%nat →
  bytesRange lo hi data = subarray lo hi data.
Proof.
  intros Hlen. unfold bytesRange, subarray. apply omap_lookup_seq. lia.
Qed.

Lemma parseAccountInfo_described toBase58 info :
  parseAccountInfo toBase58 info = describedRecord toBase58 info.
Proof.
  unfold parseAccountInfo, describedRecord, MIN_TOKEN_ACCOUNT_DATA_LEN.
  destruct info as [account|]; [|done].
  case_bool_decide as Hown; simpl.
  - destruct (Nat.ltb_spec (length (ai_data account)) 64).
    + rewrite decide_False by lia. done.
    + rewrite decide_True by done.
      by rewrite !bytesRange_subarray by lia.
  - rewrite decide_False; [done|]. by intros [? _].
Qed.

Lemma parseAccountInfos_loop toBase58 tokenAccounts accountInfos
    (n i : nat) onChainCache info :
  accountInfos !! i = Some info →
  (i < n ≤ length accountInfos)%nat →
  (∀ j, (i < j < n)%nat →
        key (mjoin (tokenAccounts !! j)) ≠ key (mjoin (tokenAccounts !! i))) →
  foldl (storeAccountInfo toBase58 tokenAccounts accountInfos) onChainCache
    (seq 0 n) !! key (mjoin (tokenAccounts !! i))
  = Some (parseAccountInfo toBase58 info).
Proof.
  intros Hi. induction n as [|n IH]; intros Hn Hlater; [lia|].
  rewrite seq_S, foldl_app. cbn [foldl plus].
  unfold storeAccountInfo at 1.
  destruct (lookup_lt_is_Some_2 accountInfos n) as [x Hx]; [lia|].
  rewrite Hx. destruct (decide (i = n)) as [->|Hne].
  - rewrite lookup_insert_eq. congruence.
  - rewrite lookup_insert_ne by (apply Hlater; lia).
    apply IH; [lia|]. intros j Hj. apply Hlater. lia.
Qed.

(** C5. After the loop over the returned accounts, the cache holds for the
    address at position [i] the record described for the account returned
    at position [i]: the marker with null owner and mint when the account
    does not exist, is not owned by the token program or has fewer than 64
    bytes of data, and otherwise the mint printed from bytes [0,32) and the
    owner printed from bytes [32,64).  (A later position of the same address
    would overwrite it; the addresses of a run are distinct.) *)
Theorem fetched_account_recorded toBase58 tokenAccounts accountInfos
    onChainCache (i : nat) info :
  accountInfos !! i = Some info →
  (∀ j, (i < j < length accountInfos)%nat →
        key (mjoin (tokenAccounts !! j)) ≠ key (mjoin (tokenAccounts !! i))) →
  parseAccountInfos toBase58 tokenAccounts accountInfos onChainCache
    !! key (mjoin (tokenAccounts !! i))
  = Some (describedRecord toBase58 info).
Proof.
  intros Hi Hlater. unfold parseAccountInfos.
  rewrite <-parseAccountInfo_described.
  apply parseAccountInfos_loop; [done| |done].
  apply lookup_lt_Some in Hi. lia.
Qed.

Lemma fetched_account_recorded_witness :
  parseAccountInfos sampleBase58 [Some "C1"; Some "C2"]
    [None; Some accountC2] ∅ !! "C2"
  = Some {| c_owner := Some "O"; c_mint := Some "M" |}.
Proof.
  apply (fetched_account_recorded sampleBase58 [Some "C1"; Some "C2"]
           [None; Some accountC2] ∅ 1%nat (Some accountC2)).
  - reflexivity.
  - simpl. lia.
Defined.

Example missing_account_recorded :
  parseAccountInfos sampleBase58 [Some "C1"; Some "C2"]
    [None; Some accountC2] ∅ !! "C1"
  = Some {| c_owner := None; c_mint := None |}.
Proof. vm_compute. reflexivity. Qed.

(** ** The sentinel mint *)

Lemma knownBeforeFetch_mint parsedTx (k : string) :
  knownBeforeFetch parsedTx !! k ≫= d_mint = snapshotMint parsedTx k.
Proof.
  unfold knownBeforeFetch, snapshotMint. rewrite unify_lookup.
  destruct (buildTokenAccountMapFromInstructions parsedTx !! k); [|done].
  by destruct (buildTokenAccountMapFromBalances parsedTx !! k).
Qed.

Lemma truthy_value_given (a : option string) :
  a ≠ Some "" → truthy_value a = a.
Proof. by destruct a as [[|]|]. Qed.

Lemma fixMintDecimals_mint tokenAccountData t :
  fieldsGiven tokenAccountData →
  t_mint (fixMintDecimals tokenAccountData t)
  = if bool_decide (t_mint t = UNKNOWN_MINT)
    then default
           (default UNKNOWN_MINT
              (tokenAccountData !! key (t_rawTo t) ≫= d_mint))
           (tokenAccountData !! key (t_rawFrom t) ≫= d_mint)
    else t_mint t.
Proof.
  intros Hf. unfold fixMintDecimals, copyMint.
  assert (∀ k, truthy_value (d_mint (default noData (tokenAccountData !! k)))
               = tokenAccountData !! k ≫= d_mint) as Hm.
  { intros k. destruct (tokenAccountData !! k) as [e|] eqn:He; [|done].
    simpl. apply truthy_value_given. by destruct (Hf _ _ He). }
  rewrite !Hm.
  destruct (bool_decide (t_mint t = UNKNOWN_MINT)) eqn:Hsent;
    [|by repeat case_match].
  apply bool_decide_eq_true in Hsent.
  destruct (tokenAccountData !! key (t_rawFrom t) ≫= d_mint),
    (tokenAccountData !! key (t_rawTo t) ≫= d_mint);
    by repeat (case_match; simpl).
Qed.

(** The mint of a record, from the mint of the raw event and the final
    table. *)
Lemma output_mint `{JSNumbers} isPublicKey toBase58 conn signature
    includeSolTransfers out tr (i : nat) r :
  exec conn (parseTransfersFromSignature isPublicKey toBase58 signature
               includeSolTransfers) = (Some out, tr) →
  out !! i = Some r →
  ∃ parsedTx t,
    getParsedTransaction conn signature = Some (Some parsedTx)
    ∧ gatherTransfers parsedTx includeSolTransfers !! i = Some t
    ∧ let kb := knownAfterFetch toBase58 conn parsedTx includeSolTransfers in
      mint r
      = if bool_decide (t_mint t = UNKNOWN_MINT)
        then default (default UNKNOWN_MINT (kb !! key (t_rawTo t) ≫= d_mint))
               (kb !! key (t_rawFrom t) ≫= d_mint)
        else t_mint t.
Proof.
  intros Hrun Hr.
  destruct (output_record _ _ _ _ _ _ _ _ _ Hrun Hr)
    as (parsedTx & t & Htx & Hpk & Ht & ->).
  exists parsedTx, t. split; [done|]. split; [done|].
  cbv zeta. cbn [finish mint].
  rewrite fixMintDecimals_mint by apply knownAfterFetch_given.
  by destruct (rewriteOwners_frame
                 (knownAfterFetch toBase58 conn parsedTx includeSolTransfers)
                 t) as (-> & -> & -> & _).
Qed.

(** Whatever the ledger holds, an event without a mint keeps the sentinel
    when both its endpoints have, in the table built without the network,
    an owner and no mint: such an endpoint is not looked up. *)
Lemma owned_endpoints_keep_sentinel `{JSNumbers} isPublicKey toBase58 conn
    signature includeSolTransfers out tr (i : nat) r :
  exec conn (parseTransfersFromSignature isPublicKey toBase58 signature
               includeSolTransfers) = (Some out, tr) →
  out !! i = Some r →
  ∃ parsedTx t,
    getParsedTransaction conn signature = Some (Some parsedTx)
    ∧ gatherTransfers parsedTx includeSolTransfers !! i = Some t
    ∧ (t_mint t = UNKNOWN_MINT →
       (∀ a, a = t_rawFrom t ∨ a = t_rawTo t →
             ∃ e, knownBeforeFetch parsedTx !! key a = Some e
                  ∧ is_Some (d_owner e) ∧ d_mint e = None) →
       mint r = UNKNOWN_MINT).
Proof.
  intros Hrun Hr.
  destruct (output_mint _ _ _ _ _ _ _ _ _ Hrun Hr)
    as (parsedTx & t & Htx & Ht & Hmint).
  exists parsedTx, t. split; [done|]. split; [done|].
  intros Hsent Hown. cbv zeta in Hmint.
  rewrite Hmint, (bool_decide_eq_true_2 _ Hsent).
  assert (∀ a, a = t_rawFrom t ∨ a = t_rawTo t →
               knownAfterFetch toBase58 conn parsedTx includeSolTransfers
                 !! key a ≫= d_mint = None) as Hnone.
  { intros a Ha. destruct (Hown a Ha) as (e & He & [o Ho] & Hm).
    unfold knownAfterFetch. rewrite incorporate_lookup.
    rewrite decide_False; [by rewrite He|].
    intros (a' & Hk & Hin)%list_elem_of_fmap.
    apply addressesOf_spec in Hin as [_ Hun].
    unfold unresolved in Hun. rewrite <-Hk, He in Hun.
    destruct Hun; congruence. }
  by rewrite !Hnone by auto.
Qed.


(** ** The scaled amount *)



Lemma jsor_zero (n : Z) : jsor n 0 = n.
Proof.
  unfold jsor, truthy, Z_truthy. by destruct (Z.eqb_spec n 0).
Qed.

Lemma finish_uiAmount `{JSNumbers} x :
  uiAmount (finish x)
  = if isNaN (parseFloat (t_amount x)) then None
    else Some (Number_divide (parseFloat (t_amount x))
                 (Math_pow10 (t_decimals x))).
Proof.
  unfold finish. cbn [uiAmount]. rewrite jsor_zero.
  by destruct (isNaN (parseFloat (t_amount x))).
Qed.





(** A no-break space (U+00A0) and a byte order mark (U+FEFF) before the
    digits are skipped; a zero width space (U+200B) is not white space. *)
Example white_space_skipped :
  startsNumber (String "194" (String "160" "7")) = true
  ∧ startsNumber (String "239" (String "187" (String "191" "-.5"))) = true
  ∧ startsNumber (String "226" (String "128" (String "139" "7"))) = false
  ∧ startsNumber " +Infinity" = true
  ∧ startsNumber "- 7" = false.
Proof. repeat split. Qed.

(** With any numbers that follow the prefix rule, the amount "12abc" has a
    uiAmount. *)
Example prefix_amount_has_uiAmount `{JSNumbers} x :
  (∀ s, isNaN (parseFloat s) = negb (startsNumber s)) →
  t_amount x = "12abc" → uiAmount (finish x) ≠ None.
Proof.
  intros Hrule Hx. rewrite finish_uiAmount, Hrule, Hx. done.
Qed.

(** * Further properties of the parser *)

(** ** The run as a whole *)

(** X1. When the ledger has no transaction for the signature, or the
    transaction carries no metadata, the run returns the empty list, and the
    request for the transaction is the only one it issues. *)
Theorem missing_transaction_gives_empty `{JSNumbers} isPublicKey toBase58
    conn signature includeSolTransfers :
  getParsedTransaction conn signature = Some None
  ∨ (∃ parsedTx, getParsedTransaction conn signature = Some (Some parsedTx)
                 ∧ meta parsedTx = None) →
  exec conn (parseTransfersFromSignature isPublicKey toBase58 signature
               includeSolTransfers)
  = (Some [], [ReqParsedTransaction signature]).
Proof.
  rewrite exec_parseTransfersFromSignature.
  intros [->|(parsedTx & -> & ->)]; done.
Qed.

Lemma missing_transaction_gives_empty_witness :
  exec sampleConn
    (parseTransfersFromSignature (H := sampleNumbers) sampleIsPublicKey
       sampleBase58 "sig3" true)
  = (Some [], [ReqParsedTransaction "sig3"]).
Proof.
  apply (missing_transaction_gives_empty (H := sampleNumbers)
           sampleIsPublicKey sampleBase58 sampleConn "sig3" true).
  left. reflexivity.
Defined.

(** X2. Every run first asks for the transaction and then issues at most one
    further request, a batched lookup.  It ends without a value whenever the
    request for the transaction is rejected, and whenever the transaction
    is there with its metadata and one of the addresses to fetch is not
    accepted as a public key or the batched lookup is rejected. *)
Theorem run_fails_on_rejection `{JSNumbers} isPublicKey toBase58 conn
    signature includeSolTransfers :
  let run :=
    exec conn (parseTransfersFromSignature isPublicKey toBase58 signature
                 includeSolTransfers) in
  (∃ rest, run.2 = ReqParsedTransaction signature :: rest
           ∧ (length rest ≤ 1)%nat
           ∧ Forall (λ r, isBatchedLookup r = true) rest)
  ∧ (getParsedTransaction conn signature = None → run.1 = None)
  ∧ (∀ parsedTx,
       getParsedTransaction conn signature = Some (Some parsedTx) →
       is_Some (meta parsedTx) →
       forallb isPublicKey (addressesOf parsedTx includeSolTransfers) = false
       ∨ (addressesOf parsedTx includeSolTransfers ≠ []
          ∧ getMultipleAccountsInfo conn
              (addressesOf parsedTx includeSolTransfers) = None) →
       run.1 = None).
Proof.
  cbv zeta. rewrite exec_parseTransfersFromSignature.
  destruct (getParsedTransaction conn signature) as [[parsedTx|]|] eqn:Htx.
  - destruct (meta parsedTx) as [m|] eqn:Hm.
    + cbv zeta.
      destruct (addressesOf parsedTx includeSolTransfers) as [|a l] eqn:Hl.
      * split; [exists []; repeat split; [simpl; lia|constructor]|].
        split; [done|]. intros tx [= <-] _ Hbad.
        rewrite Hl in Hbad. by destruct Hbad as [?|[? _]].
      * destruct (forallb isPublicKey (a :: l)) eqn:Hpk.
        -- split.
           { eexists. split; [done|]. split; [simpl; lia|].
             by repeat constructor. }
           split; [done|]. intros tx [= <-] _ Hbad. rewrite Hl in Hbad.
           destruct Hbad as [?|[_ ->]]; [congruence|done].
        -- split; [exists []; repeat split; [simpl; lia|constructor]|].
           done.
    + split; [exists []; repeat split; [simpl; lia|constructor]|].
      split; [done|]. intros tx [= <-] [m Hm'] _. congruence.
  - split; [exists []; repeat split; [simpl; lia|constructor]|]. done.
  - split; [exists []; repeat split; [simpl; lia|constructor]|]. done.
Qed.

Example rejected_lookup_fails :
  exec quietConn
    (parseTransfersFromSignature (H := sampleNumbers) sampleIsPublicKey
       sampleBase58 "any" true)
  = (Some [], [ReqParsedTransaction "any"])
  ∧ exec {| getParsedTransaction := getParsedTransaction sampleConn;
            getMultipleAccountsInfo := λ _, None |}
      (parseTransfersFromSignature (H := sampleNumbers) sampleIsPublicKey
         sampleBase58 "sig1" true)
    = (None,
       [ReqParsedTransaction "sig1"; ReqMultipleAccountsInfo [Some "C2"]]).
Proof. split; vm_compute; reflexivity. Qed.

Lemma fmap_bind_list {A B C} (f : B → C) (g : A → list B) (l : list A) :
  f <$> (l ≫= g) = l ≫= (λ x, f <$> g x).
Proof.
  induction l as [|x l IH]; [done|].
  by rewrite !bind_cons, fmap_app, IH.
Qed.

Lemma reconcile_bind `{JSNumbers} {A} tokenAccountData
    (g : A → list Transfer) l :
  reconcile tokenAccountData (l ≫= g)
  = l ≫= (λ x, reconcile tokenAccountData (g x)).
Proof. unfold reconcile. by rewrite !fmap_bind_list. Qed.

(** X3. A run that finds the transaction returns one record per raw event,
    in the order of the instructions: the records of the top-level
    instructions, one instruction after the other, followed by those of the
    inner groups, group by group. *)
Theorem records_follow_instructions `{JSNumbers} isPublicKey toBase58 conn
    signature includeSolTransfers out tr parsedTx :
  exec conn (parseTransfersFromSignature isPublicKey toBase58 signature
               includeSolTransfers) = (Some out, tr) →
  getParsedTransaction conn signature = Some (Some parsedTx) →
  is_Some (meta parsedTx) →
  let recordsOf ix :=
    reconcile (knownAfterFetch toBase58 conn parsedTx includeSolTransfers)
      (parseInstructionTransfers ix includeSolTransfers) in
  out = ((default [] (instructions parsedTx) ≫= recordsOf)
         ++ ((default [] (meta parsedTx ≫= innerInstructions)
              ≫= g_instructions) ≫= recordsOf))%list
  ∧ length out = length (gatherTransfers parsedTx includeSolTransfers).
Proof.
  intros Hrun Htx [m Hm]. cbv zeta.
  assert (out = reconcile
                  (knownAfterFetch toBase58 conn parsedTx includeSolTransfers)
                  (gatherTransfers parsedTx includeSolTransfers)) as ->.
  { rewrite exec_parseTransfersFromSignature, Htx, Hm in Hrun.
    cbv zeta in Hrun.
    destruct (addressesOf parsedTx includeSolTransfers); [congruence|].
    destruct (forallb isPublicKey _); [|done].
    destruct (getMultipleAccountsInfo conn _); congruence. }
  split.
  - unfold gatherTransfers, allInstructions.
    by rewrite reconcile_bind, bind_app.
  - unfold reconcile. by rewrite !length_fmap.
Qed.

Lemma records_follow_instructions_witness :
  let recordsOf ix :=
    reconcile (H := sampleNumbers)
      (knownAfterFetch sampleBase58 sampleConn sampleTx true)
      (parseInstructionTransfers ix true) in
  [plainRecord; checkedRecord]
  = ((default [] (instructions sampleTx) ≫= recordsOf)
     ++ ((default [] (meta sampleTx ≫= innerInstructions)
          ≫= g_instructions) ≫= recordsOf))%list
  ∧ length [plainRecord; checkedRecord]
    = length (gatherTransfers sampleTx true).
Proof.
  apply (records_follow_instructions (H := sampleNumbers) sampleIsPublicKey
           sampleBase58 sampleConn "sig1" true [plainRecord; checkedRecord]
           [ReqParsedTransaction "sig1"; ReqMultipleAccountsInfo [Some "C2"]]
           sampleTx).
  - vm_compute. reflexivity.
  - reflexivity.
  - by eexists.
Defined.

(** ** The instruction decoder *)

(** X4. An instruction yields events exactly when it carries a payload with
    a non-empty type and an info object, and the type is transfer,
    transferChecked or transferCheckedWithFee, or native transfers are
    included and the type is createAccount with nonzero lamports.  Anything
    else is passed over. *)
Theorem decoder_yields_events_iff ix includeSolTransfers :
  parseInstructionTransfers ix includeSolTransfers ≠ []
  ↔ ∃ type info,
      parsed ix = Some {| p_type := Some type; p_info := Some info |}
      ∧ type ≠ ""
      ∧ (type ∈ ["transfer"; "transferChecked"; "transferCheckedWithFee"]
         ∨ (includeSolTransfers = true ∧ type = "createAccount"
            ∧ ∃ n, i_lamports info = Some n ∧ n ≠ 0)).
Proof.
  unfold parseInstructionTransfers.
  destruct (parsed ix) as [[[type|] [info|]]|];
    try (split; [done|by intros (? & ? & [=] & _)]).
  destruct (truthy type) eqn:Hty; cbn [negb].
  - apply truthy_string_nonempty in Hty.
    destruct (isTokenTransferType type) eqn:Htok.
    + split; [|done]. intros _. exists type, info.
      split; [done|]. split; [done|]. left.
      unfold isTokenTransferType in Htok.
      apply orb_prop in Htok as [[H|H]%orb_prop|H];
        apply bool_decide_eq_true in H; subst; set_solver.
    + assert (type ∉ ["transfer"; "transferChecked";
                      "transferCheckedWithFee"]) as Hnot.
      { intros Hin. unfold isTokenTransferType in Htok.
        set_unfold in Hin. destruct Hin as [->|[->|[->|[]]]]; done. }
      assert (bool_decide (type = "transfer") = false) as ->.
      { apply bool_decide_eq_false. intros ->. apply Hnot. set_solver. }
      rewrite andb_false_r. cbn [andb app].
      destruct includeSolTransfers; cbn [andb].
      * case_bool_decide as Hc; cbn [andb].
        -- destruct (i_lamports info) as [n|] eqn:Hn.
           ++ change (truthy (Some n)) with (negb (Z.eqb n 0)).
              destruct (Z.eqb_spec n 0) as [->|Hn0]; cbn [negb].
              ** split; [done|].
                 intros (? & ? & [= <- <-] & _ & [?|(_ & _ & n' & Hn' & ?)]);
                   [done|congruence].
              ** split; [|done]. intros _. exists type, info.
                 repeat split; try done. right. eauto.
           ++ split; [done|].
              intros (? & ? & [= <- <-] & _ & [?|(_ & _ & n' & Hn' & ?)]);
                [done|congruence].
        -- split; [done|].
           intros (? & ? & [= <- <-] & _ & [?|(_ & ? & _)]); done.
      * split; [done|].
        intros (? & ? & [= <- <-] & _ & [?|(? & _)]); done.
  - split; [done|]. intros (? & ? & [= <- <-] & Hne & _).
    destruct type; [done|]. done.
Qed.

Lemma digitValue_pretty_N_char d :
  (d < 10)%N → digitValue (pretty_N_char d) = Some (Z.of_N d).
Proof.
  intros Hd.
  assert (d = 0 ∨ d = 1 ∨ d = 2 ∨ d = 3 ∨ d = 4 ∨ d = 5 ∨ d = 6 ∨ d = 7
          ∨ d = 8 ∨ d = 9)%N as Hcases by lia.
  repeat (destruct Hcases as [->|Hcases]; [done|]). by subst.
Qed.

Lemma string_app_cons c (a b : string) :
  String c a +:+ b = String c (a +:+ b).
Proof. reflexivity. Qed.

Lemma string_app_assoc (a b c : string) : (a +:+ b) +:+ c = a +:+ (b +:+ c).
Proof.
  induction a as [|x a IH]; [done|]. by rewrite !string_app_cons, IH.
Qed.

Lemma string_app_nil (a : string) : a +:+ "" = a.
Proof. induction a as [|x a IH]; [done|]. by rewrite string_app_cons, IH. Qed.

Lemma string_length_snoc (a : string) c :
  String.length (a +:+ String c "") = S (String.length a).
Proof.
  induction a as [|x a IH]; [done|]. rewrite string_app_cons. simpl.
  by rewrite IH.
Qed.

Lemma digitsValue_app acc p rest :
  digitsValue acc (p +:+ rest) = digitsValue acc p ≫= λ v, digitsValue v rest.
Proof.
  revert acc. induction p as [|c p IH]; intros acc; [done|].
  rewrite string_app_cons. simpl.
  destruct (digitValue c); [apply IH|done].
Qed.

Lemma pretty_N_go_digits x s :
  ∃ p, pretty_N_go x s = p +:+ s
       ∧ ((0 < x)%N → p ≠ "")
       ∧ ∀ acc, digitsValue acc p
                = Some (acc * 10 ^ Z.of_nat (String.length p) + Z.of_N x).
Proof.
  revert s. induction (N.lt_wf_0 x) as [x _ IH]; intros s.
  destruct (decide (x = 0)%N) as [->|Hx].
  { exists "". split; [done|]. split; [lia|]. intros acc. simpl.
    f_equal. lia. }
  rewrite pretty_N_go_step by lia.
  destruct (IH (x `div` 10)%N) with
    (s := String (pretty_N_char (x `mod` 10)) s) as (p & Hp & _ & Hval).
  { apply N.div_lt; lia. }
  exists (p +:+ String (pretty_N_char (x `mod` 10)) "").
  split; [by rewrite Hp, string_app_assoc|].
  split; [by destruct p|].
  intros acc. rewrite digitsValue_app, Hval. simpl.
  rewrite digitValue_pretty_N_char by (apply N.mod_lt; lia).
  simpl. f_equal.
  rewrite string_length_snoc.
  rewrite Nat2Z.inj_succ, Z.pow_succ_r by lia.
  pose proof (N.div_mod x 10) as Hdm.
  assert (Z.of_N x = 10 * Z.of_N (x `div` 10) + Z.of_N (x `mod` 10)) by lia.
  lia.
Qed.

Lemma integerNumeral_pretty_pos (p : positive) :
  integerNumeral (pretty (Zpos p)) = Some (Zpos p)
  ∧ pretty (Zpos p) ≠ "".
Proof.
  change (pretty (Zpos p)) with (pretty_N_go (Npos p) "").
  destruct (pretty_N_go_digits (Npos p) "") as (s & Hs & Hne & Hval).
  rewrite Hs, string_app_nil. specialize (Hne ltac:(lia)).
  split; [|done]. unfold integerNumeral. destruct s; [done|].
  by rewrite Hval.
Qed.

Lemma String_of_number_nonempty n : String_of_number n ≠ "".
Proof.
  unfold String_of_number. destruct n as [|p|p]; [done| |done].
  apply integerNumeral_pretty_pos.
Qed.

Lemma digit_code c d :
  digitValue c = Some d → (48 ≤ Z.of_N (N_of_ascii c) ≤ 57)%Z.
Proof.
  unfold digitValue. destruct (_ && _) eqn:Hc; [|done]. intros _.
  apply andb_prop in Hc as [H1%Z.leb_le H2%Z.leb_le]. lia.
Qed.

(** A string that starts with a visible ASCII character has no leading
    white space. *)
Lemma trimStart_visible c r :
  (32 < Z.of_N (N_of_ascii c) < 128)%Z → trimStart (String c r) = String c r.
Proof.
  intros Hc. cbn [trimStart].
  assert (∀ k, (128 ≤ k)%Z → (Z.of_N (N_of_ascii c) =? k)%Z = false) as Hne
    by (intros; apply Z.eqb_neq; lia).
  assert (isWhiteSpace1 c = false) as ->.
  { unfold isWhiteSpace1. cbv zeta.
    rewrite (proj2 (Z.leb_gt (Z.of_N (N_of_ascii c)) 13)) by lia.
    rewrite (proj2 (Z.eqb_neq (Z.of_N (N_of_ascii c)) 32)) by lia.
    by rewrite andb_false_r. }
  destruct r as [|c2 r2]; [done|].
  assert (isWhiteSpace2 c c2 = false) as ->.
  { unfold isWhiteSpace2. cbv zeta. by rewrite Hne by lia. }
  destruct r2 as [|c3 r3]; [done|].
  assert (isWhiteSpace3 c c2 c3 = false) as ->.
  { unfold isWhiteSpace3. cbv zeta. by rewrite !Hne by lia. }
  done.
Qed.

Lemma startsNumber_digit c r :
  is_Some (digitValue c) → startsNumber (String c r) = true.
Proof.
  intros [d Hd]. pose proof (digit_code c d Hd) as Hcode.
  unfold startsNumber. rewrite trimStart_visible by lia.
  assert (∀ c', (Z.of_N (N_of_ascii c') < 48)%Z → c ≠ c') as Hne
    by (intros c' Hc' ->; lia).
  unfold readSign.
  rewrite (bool_decide_eq_false_2 (c = "+"%char)) by (by apply Hne).
  rewrite (bool_decide_eq_false_2 (c = "-"%char)) by (by apply Hne).
  cbn [snd startsWithDigit].
  rewrite (bool_decide_eq_true_2 (is_Some (digitValue c))) by by exists d.
  by rewrite orb_true_r.
Qed.

Lemma pretty_pos_digit (p : positive) :
  ∃ c r, pretty (Zpos p) = String c r ∧ is_Some (digitValue c).
Proof.
  destruct (integerNumeral_pretty_pos p) as [Hv Hne].
  destruct (pretty (Z.pos p)) as [|c r]; [done|]. exists c, r.
  split; [done|]. unfold integerNumeral in Hv. simpl in Hv.
  by destruct (digitValue c).
Qed.

(** The printed lamports always have a numeric prefix. *)
Lemma startsNumber_String_of_number n :
  startsNumber (String_of_number n) = true.
Proof.
  unfold String_of_number. destruct n as [|p|p].
  - by vm_compute.
  - destruct (pretty_pos_digit p) as (c & r & -> & Hc).
    by apply startsNumber_digit.
  - change (pretty (Z.neg p)) with (String "-" (pretty (Z.pos p))).
    destruct (pretty_pos_digit p) as (c & r & -> & Hc).
    unfold startsNumber. rewrite trimStart_visible by (vm_compute; done).
    change (readSign (String "-" (String c r))) with (true, String c r).
    cbn [snd startsWithDigit].
    rewrite (bool_decide_eq_true_2 (is_Some (digitValue c))) by done.
    by rewrite orb_true_r.
Qed.

(** X5. An instruction yields at most two events, and two only when it is a
    transfer with nonzero lamports and native transfers are included (a
    token event followed by a native one).  No event has an empty amount or
    an empty mint. *)
Theorem decoded_events_wellformed ix includeSolTransfers :
  let events := parseInstructionTransfers ix includeSolTransfers in
  (length events ≤ 2)%nat
  ∧ (length events = 2%nat
     ↔ includeSolTransfers = true
       ∧ ∃ info n,
           parsed ix = Some {| p_type := Some "transfer";
                               p_info := Some info |}
           ∧ i_lamports info = Some n ∧ n ≠ 0)
  ∧ Forall (λ t, t_amount t ≠ "" ∧ t_mint t ≠ "") events.
Proof.
  assert (∀ info, t_amount (tokenTransfer info) ≠ ""
                  ∧ t_mint (tokenTransfer info) ≠ "") as Htok.
  { intros info. rewrite tokenTransfer_described. simpl. split.
    - destruct (i_amount info) as [[|]|]; simpl; try done;
        by destruct (i_tokenAmount info ≫= ta_amount) as [[|]|].
    - by destruct (i_mint info) as [[|]|]. }
  assert (∀ a b n, t_amount (solTransfer a b n) ≠ ""
                   ∧ t_mint (solTransfer a b n) ≠ "") as Hsol.
  { intros a b n. split; [apply String_of_number_nonempty|done]. }
  cbv zeta. unfold parseInstructionTransfers.
  destruct (parsed ix) as [[[type|] [info|]]|];
    try (split; [simpl; lia|];
         split; [split; [done|by intros (_ & ? & ? & [=] & _)]
                |apply List.Forall_nil]).
  destruct (truthy type) eqn:Hty; cbn [negb];
    [|split; [simpl; lia|];
      split; [split; [done|intros (_ & ? & ? & [= -> _] & _); done]
             |apply List.Forall_nil]].
  assert (truthy (i_lamports info) = true
          ↔ ∃ n, i_lamports info = Some n ∧ n ≠ 0) as Hlam.
  { destruct (i_lamports info) as [n|];
      [change (truthy (Some n)) with (negb (Z.eqb n 0))|].
    - destruct (Z.eqb_spec n 0); simpl; split; try done.
      + intros (? & [= <-] & ?). done.
      + eauto.
    - split; [done|]. by intros (? & ? & _). }
  destruct (decide (type = "transfer")) as [->|Hne].
  - change (isTokenTransferType "transfer") with true.
    rewrite (bool_decide_eq_true_2 ("transfer" = "transfer")) by done.
    rewrite (bool_decide_eq_false_2 ("transfer" = "createAccount")) by done.
    rewrite andb_false_r, andb_true_r. cbn [app].
    destruct includeSolTransfers; cbn [andb].
    + destruct (truthy (i_lamports info)) eqn:Hl.
      * split; [simpl; lia|]. split; [|(simpl; repeat (apply List.Forall_cons; [first [apply Htok|apply Hsol]|]); apply List.Forall_nil)].
        split; [|done]. intros _. split; [done|].
        destruct (proj1 Hlam eq_refl) as (n & ? & ?). by exists info, n.
      * split; [simpl; lia|]. split; [|(simpl; repeat (apply List.Forall_cons; [first [apply Htok|apply Hsol]|]); apply List.Forall_nil)].
        split; [done|]. intros (_ & info' & n & [= <-] & Hn & Hn0).
        assert (false = true) by (apply Hlam; eauto). done.
    + split; [simpl; lia|]. split; [|(simpl; repeat (apply List.Forall_cons; [first [apply Htok|apply Hsol]|]); apply List.Forall_nil)].
      split; [done|]. by intros [? _].
  - rewrite (bool_decide_eq_false_2 (type = "transfer")) by done.
    rewrite andb_false_r. cbn [andb].
    assert (∀ l : list Transfer,
              (length l ≤ 1)%nat →
              Forall (λ t, t_amount t ≠ "" ∧ t_mint t ≠ "") l →
              (length l ≤ 2)%nat
              ∧ (length l = 2%nat
                 ↔ includeSolTransfers = true
                   ∧ ∃ info0 n,
                       Some {| p_type := Some type; p_info := Some info |}
                       = Some {| p_type := Some "transfer";
                                 p_info := Some info0 |}
                       ∧ i_lamports info0 = Some n ∧ n ≠ 0)
              ∧ Forall (λ t, t_amount t ≠ "" ∧ t_mint t ≠ "") l) as Hshort.
    { intros l Hl Hall. split; [lia|]. split; [|done]. split; [lia|].
      intros (_ & ? & ? & [= -> _] & _). done. }
    destruct (isTokenTransferType type) eqn:Histok.
    + assert (bool_decide (type = "createAccount") = false) as ->.
      { apply bool_decide_eq_false. intros ->. done. }
      rewrite andb_false_r. apply Hshort; [simpl; lia|(simpl; repeat (apply List.Forall_cons; [first [apply Htok|apply Hsol]|]); apply List.Forall_nil)].
    + cbn [app]. destruct (_ && _);
        (apply Hshort; [simpl; lia|(simpl; repeat (apply List.Forall_cons; [first [apply Htok|apply Hsol]|]); apply List.Forall_nil)]).
Qed.

Lemma native_record `{JSNumbers} tokenAccountData from to n :
  let r := finish (fixMintDecimals tokenAccountData
                     (rewriteOwners tokenAccountData (solTransfer from to n)))
  in
  mint r = SOL ∧ decimals r = 9 ∧ amount r = String_of_number n
  ∧ fromTokenAccount r = from ∧ toTokenAccount r = to
  ∧ uiAmount r
    = if isNaN (parseFloat (String_of_number n)) then None
      else Some (Number_divide (parseFloat (String_of_number n))
                   (Math_pow10 9)).
Proof.
  cbv zeta.
  set (t := rewriteOwners tokenAccountData (solTransfer from to n)).
  destruct (rewriteOwners_frame tokenAccountData (solTransfer from to n))
    as (Hrf & Hrt & Hm & Ha & Hd). fold t in Hrf, Hrt, Hm, Ha, Hd.
  simpl in Hrf, Hrt, Hm, Ha, Hd.
  assert (fixMintDecimals tokenAccountData t = t) as ->.
  { unfold fixMintDecimals.
    rewrite (bool_decide_eq_false_2 (t_mint t = UNKNOWN_MINT))
      by (by rewrite Hm).
    by rewrite (bool_decide_eq_false_2 (t_decimals t = 0))
      by (by rewrite Hd). }
  rewrite finish_uiAmount.
  cbn [finish mint decimals amount fromTokenAccount toTokenAccount].
  by rewrite Hm, Hd, Ha, Hrf, Hrt.
Qed.

(** X6. With native transfers included, a transfer or createAccount
    instruction with nonzero lamports (a safe integer) ends the records of
    the instruction with a native record: mint SOL, decimals 9, the decimal
    digits of the lamports as amount, the payload's source as source
    account and its destination (for createAccount, the new account) as
    destination account, whatever the table holds.  Its uiAmount is what
    [parseFloat] reads from those digits divided by [Math.pow(10, 9)], and
    it is never null. *)
Theorem native_transfer_scaled `{JSNumbers} tokenAccountData ix type info n :
  parsed ix = Some {| p_type := Some type; p_info := Some info |} →
  i_lamports info = Some n → n ≠ 0 → (Z.abs n ≤ 2 ^ 53)%Z →
  type = "transfer" ∨ type = "createAccount" →
  ∃ r,
    last (reconcile tokenAccountData (parseInstructionTransfers ix true))
    = Some r
    ∧ mint r = SOL ∧ decimals r = 9 ∧ amount r = pretty n
    ∧ fromTokenAccount r = i_source info
    ∧ toTokenAccount r
      = (if bool_decide (type = "transfer") then i_destination info
         else i_newAccount info)
    ∧ uiAmount r
      = (if isNaN (parseFloat (amount r)) then None
         else Some (Number_divide (parseFloat (amount r)) (Math_pow10 9)))
    ∧ ((∀ s, isNaN (parseFloat s) = negb (startsNumber s)) →
       uiAmount r ≠ None).
Proof.
  intros Hp Hn Hn0 _ Hty.
  assert (truthy (i_lamports info) = true) as Hl.
  { rewrite Hn. change (truthy (Some n)) with (negb (Z.eqb n 0)).
    by destruct (Z.eqb_spec n 0). }
  assert (∀ from to,
            let r := finish (fixMintDecimals tokenAccountData
                               (rewriteOwners tokenAccountData
                                  (solTransfer from to n))) in
            mint r = SOL ∧ decimals r = 9 ∧ amount r = pretty n
            ∧ fromTokenAccount r = from ∧ toTokenAccount r = to
            ∧ uiAmount r
              = (if isNaN (parseFloat (amount r)) then None
                 else Some (Number_divide (parseFloat (amount r))
                              (Math_pow10 9)))
            ∧ ((∀ s, isNaN (parseFloat s) = negb (startsNumber s)) →
               uiAmount r ≠ None)) as Hrec.
  { intros from to r.
    destruct (native_record tokenAccountData from to n)
      as (Hm & Hd & Ha & Hf & Ht & Hu). fold r in Hm, Hd, Ha, Hf, Ht, Hu.
    repeat (split; [done|]). rewrite Hu, Ha. split; [done|].
    intros Hrule. by rewrite Hrule, startsNumber_String_of_number. }
  unfold parseInstructionTransfers. rewrite Hp, Hl, Hn.
  destruct Hty as [-> | ->].
  - change (truthy "transfer") with true.
    change (isTokenTransferType "transfer") with true.
    rewrite (bool_decide_eq_true_2 ("transfer" = "transfer")) by done.
    rewrite (bool_decide_eq_false_2 ("transfer" = "createAccount")) by done.
    cbn [negb andb app default]. unfold reconcile.
    cbn [fmap list_fmap last]. eexists. split; [done|]. apply Hrec.
  - change (truthy "createAccount") with true.
    change (isTokenTransferType "createAccount") with false.
    rewrite (bool_decide_eq_true_2 ("createAccount" = "createAccount"))
      by done.
    rewrite (bool_decide_eq_false_2 ("createAccount" = "transfer")) by done.
    cbn [negb andb app default]. unfold reconcile.
    cbn [fmap list_fmap last]. eexists. split; [done|]. apply Hrec.
Qed.

Lemma native_transfer_scaled_witness :
  ∃ r : ResolvedTransfer ExactNumber,
    last (reconcile (H := sampleNumbers) otherMintTable
            (parseInstructionTransfers lamportsIx true))
    = Some r
    ∧ mint r = SOL ∧ decimals r = 9
    ∧ amount r = pretty 5000000000
    ∧ fromTokenAccount r = Some addressA
    ∧ toTokenAccount r = Some addressB
    ∧ uiAmount r
      = (if exactIsNaN (exactParseFloat (amount r)) then None
         else Some (exactDivide (exactParseFloat (amount r)) (exactPow10 9)))
    ∧ ((∀ s, exactIsNaN (exactParseFloat s) = negb (startsNumber s)) →
       uiAmount r ≠ None).
Proof.
  apply (native_transfer_scaled (H := sampleNumbers) otherMintTable
           lamportsIx "transfer" _ 5000000000 eq_refl eq_refl).
  - done.
  - vm_compute. discriminate.
  - by left.
Defined.

Example native_transfer_sample :
  reconcile (H := sampleNumbers) ∅
    (parseInstructionTransfers lamportsIx true)
  = [ {| fromTokenAccount := Some addressA; toTokenAccount := Some addressB;
         fromUserAccount := Some addressA; toUserAccount := Some addressB;
         amount := "0"; mint := UNKNOWN_MINT; decimals := 0;
         uiAmount := Some (Finite 0) |};
      {| fromTokenAccount := Some addressA; toTokenAccount := Some addressB;
         fromUserAccount := Some addressA; toUserAccount := Some addressB;
         amount := "5000000000"; mint := SOL; decimals := 9;
         uiAmount := Some (Finite 5) |} ].
Proof. vm_compute. reflexivity. Qed.

(** ** The static hints *)

Lemma prefix_initialize_not_create type :
  String.prefix "initializeAccount" type = true →
  String.prefix "create" type = false.
Proof.
  destruct type as [|c r]; [done|]. cbn [String.prefix].
  destruct (ascii_dec "i" c) as [<-|]; [|done]. intros _.
  by destruct (ascii_dec "c" "i").
Qed.

Lemma handleIx_described map ix :
  handleIx map ix
  = match describedHint ix with
    | Some (container, owner) => <[container := owner]> map
    | None => map
    end.
Proof.
  unfold handleIx, describedHint.
  destruct (parsed ix) as [[[type|] [info|]]|]; try done.
  destruct (truthy type) eqn:Hty; cbn [negb]; [|by destruct type].
  destruct (String.prefix "initializeAccount" type) eqn:Hinit.
  - rewrite (prefix_initialize_not_create _ Hinit). cbn [andb].
    by destruct (i_account info) as [[|]|], (i_owner info) as [[|]|].
  - cbn [andb]. destruct (String.prefix "create" type); [|done].
    cbn [andb].
    by destruct (i_account info) as [[|]|], (i_newAccount info) as [[|]|],
      (i_owner info) as [[|]|], (i_wallet info) as [[|]|].
Qed.

Lemma foldl_hints_last (l : list Instruction) (map : gmap string string)
    (container : string) :
  foldl handleIx map l !! container
  = match last (omap (hintFor container) l) with
    | Some owner => Some owner
    | None => map !! container
    end.
Proof.
  induction l as [|ix l IH] using rev_ind; [done|].
  rewrite foldl_snoc, omap_app, last_app, handleIx_described.
  cbn [omap list_omap]. unfold hintFor at 1.
  destruct (describedHint ix) as [[c o]|]; [|by rewrite IH].
  case_decide as Hc.
  - subst. by rewrite lookup_insert_eq.
  - rewrite lookup_insert_ne by done. by rewrite IH.
Qed.

(** X7. The static hint map gives a container the owner of the last
    instruction, in the order top-level instructions then inner groups,
    that hints an owner for it, and has no entry for a container that no
    instruction hints.  An instruction hints (container, owner) when its
    type starts with initializeAccount and it has an account and an owner,
    or its type starts with create and it has an account (or else a new
    account) and an owner (or else a wallet). *)
Theorem hints_last_writer_wins parsedTx (container : string) :
  buildTokenAccountMapFromInstructions parsedTx !! container
  = last (omap (hintFor container) (allInstructions parsedTx)).
Proof.
  unfold buildTokenAccountMapFromInstructions.
  rewrite foldl_hints_last, lookup_empty. by destruct (last _).
Qed.

Example hints_of_sample :
  buildTokenAccountMapFromInstructions sampleTx = {[ "C1" := "OwnerA" ]}.
Proof. vm_compute. reflexivity. Qed.

(** ** The balance snapshots *)

Lemma truthy_value_is_given (a : option string) : truthy_value a = given a.
Proof. by destruct a as [[|]|]. Qed.

Lemma gatherOne_lookup keys map b (container : string) :
  gatherOne keys map b !! container
  = if decide (balanceAccount keys b = Some container)
    then
      let e := default noData (map !! container) in
      Some {| d_mint := match given (b_mint b) with
                        | Some m => Some m | None => d_mint e end;
              d_owner := match given (b_owner b) with
                         | Some o => Some o | None => d_owner e end;
              d_decimals := match b_uiTokenAmount b ≫= uta_decimals with
                            | Some n => Some n | None => d_decimals e end |}
    else map !! container.
Proof.
  unfold gatherOne, balanceAccount.
  destruct (b_accountIndex b) as [i|]; simpl; [|done].
  rewrite truthy_value_is_given.
  destruct (given (accountOfKey (keys !! i))) as [acct|];
    [|by rewrite decide_False by done].
  rewrite !truthy_value_is_given.
  destruct (decide (acct = container)) as [->|Hne].
  - rewrite lookup_insert_eq, decide_True by done. f_equal.
    destruct (default noData (map !! container)) as [m o d].
    by destruct (given (b_mint b)), (given (b_owner b)),
      (b_uiTokenAmount b ≫= uta_decimals).
  - rewrite lookup_insert_ne by done.
    rewrite decide_False; [done|]. by intros [= ->].
Qed.

Lemma lastReported_snoc {X} keys container (field : TokenBalance → option X)
    bs b :
  lastReported keys container field (bs ++ [b])
  = match (if decide (balanceAccount keys b = Some container)
           then field b else None) with
    | Some x => Some x
    | None => lastReported keys container field bs
    end.
Proof.
  unfold lastReported. rewrite omap_app, last_app. cbn [omap list_omap].
  by destruct (if decide _ then _ else _).
Qed.

Lemma gather_fold_fields keys (bs : list TokenBalance) (container : string) :
  let map := foldl (gatherOne keys) ∅ bs in
  (is_Some (map !! container)
   ↔ ∃ b, b ∈ bs ∧ balanceAccount keys b = Some container)
  ∧ map !! container ≫= d_mint
    = lastReported keys container (λ b, given (b_mint b)) bs
  ∧ map !! container ≫= d_owner
    = lastReported keys container (λ b, given (b_owner b)) bs
  ∧ map !! container ≫= d_decimals
    = lastReported keys container
        (λ b, b_uiTokenAmount b ≫= uta_decimals) bs.
Proof.
  cbv zeta. induction bs as [|b bs IH] using rev_ind.
  { simpl. rewrite lookup_empty. split; [|done]. split.
    - by intros [? ?].
    - by intros (b & []%elem_of_nil & _). }
  destruct IH as (IHdom & IHm & IHo & IHd).
  rewrite foldl_snoc, gatherOne_lookup, !lastReported_snoc.
  case_decide as Hb.
  - split; [|cbn zeta; simpl; rewrite <-IHm, <-IHo, <-IHd].
    + split; [|by eexists]. intros _. exists b.
      split; [apply elem_of_app; right; apply list_elem_of_here|done].
    + destruct (foldl (gatherOne keys) ∅ bs !! container) as [[m o d]|];
        simpl;
        by destruct (given (b_mint b)), (given (b_owner b)),
          (b_uiTokenAmount b ≫= uta_decimals).
  - split; [|done]. rewrite IHdom. split.
    + intros (b' & Hin & Hacc). exists b'. split; [|done].
      apply elem_of_app. by left.
    + intros (b' & [Hin|Hin]%elem_of_app & Hacc); [by exists b'|].
      apply list_elem_of_singleton in Hin as ->. done.
Qed.

(** X8. The table built from the balance snapshots has an entry for a
    container exactly when some pre or post balance entry points to it
    through the account keys (entries without an index, with an index out
    of range or pointing to an empty address are passed over).  Each field
    of the entry is the last one given for the container, pre entries
    before post entries: a post value replaces a pre value, and a field
    that a later entry leaves out keeps its earlier value.  Empty mints and
    owners count as left out; decimals 0 count as given. *)
Theorem snapshot_fields_last_writer_wins parsedTx (container : string) :
  let keys := default [] (accountKeys parsedTx) in
  let balMap := buildTokenAccountMapFromBalances parsedTx in
  (is_Some (balMap !! container)
   ↔ ∃ b, b ∈ balancesOf parsedTx ∧ balanceAccount keys b = Some container)
  ∧ balMap !! container ≫= d_mint
    = lastReported keys container (λ b, given (b_mint b))
        (balancesOf parsedTx)
  ∧ balMap !! container ≫= d_owner
    = lastReported keys container (λ b, given (b_owner b))
        (balancesOf parsedTx)
  ∧ balMap !! container ≫= d_decimals
    = lastReported keys container (λ b, b_uiTokenAmount b ≫= uta_decimals)
        (balancesOf parsedTx).
Proof.
  cbv zeta. unfold buildTokenAccountMapFromBalances, gather, balancesOf.
  rewrite <-foldl_app. apply gather_fold_fields.
Qed.

(** ** The table after the lookup *)

(** X9. In the table a run ends with, the owner of a container is the
    owner the lookup returned for it when it was asked about and the answer
    had one, else the static hint, else the owner of the balance snapshots;
    the mint is the one the lookup returned, else the snapshots' mint; the
    decimals are the snapshots' decimals, which nothing else writes.  The
    table has an entry for exactly the containers the lookup was asked
    about, the hinted ones and those of the snapshots. *)
Theorem final_table_sources toBase58 conn parsedTx includeSolTransfers
    (container : string) :
  let final :=
    knownAfterFetch toBase58 conn parsedTx includeSolTransfers !! container in
  let hints := buildTokenAccountMapFromInstructions parsedTx in
  let balMap := buildTokenAccountMapFromBalances parsedTx in
  final ≫= d_owner
  = match lookupOwner toBase58 conn parsedTx includeSolTransfers container
    with
    | Some o => Some o
    | None =>
      match hints !! container with
      | Some o => Some o
      | None => balMap !! container ≫= d_owner
      end
    end
  ∧ final ≫= d_mint
    = match lookupMint toBase58 conn parsedTx includeSolTransfers container
      with
      | Some m => Some m
      | None => balMap !! container ≫= d_mint
      end
  ∧ final ≫= d_decimals = balMap !! container ≫= d_decimals
  ∧ (is_Some final
     ↔ container ∈ key <$> addressesOf parsedTx includeSolTransfers
       ∨ is_Some (hints !! container) ∨ is_Some (balMap !! container)).
Proof.
  cbv zeta. unfold knownAfterFetch, lookupOwner, lookupMint, knownBeforeFetch.
  rewrite incorporate_lookup, unify_lookup.
  set (cached := cacheOf toBase58 conn parsedTx includeSolTransfers
                 !! container).
  set (hint := buildTokenAccountMapFromInstructions parsedTx !! container).
  set (snap := buildTokenAccountMapFromBalances parsedTx !! container).
  case_decide as Hasked.
  - cbn [mbind option_bind].
    destruct (mergeCached_fields cached
                (default noData
                   match hint with
                   | Some owner => Some (set_owner owner (default noData snap))
                   | None => snap
                   end)) as (-> & -> & ->).
    rewrite !truthy_value_is_given.
    repeat split; try (by left).
    + destruct (given (cached ≫= c_owner)); [done|].
      by destruct hint, snap.
    + destruct (given (cached ≫= c_mint)); [done|].
      by destruct hint, snap.
    + by destruct hint, snap.
    + by eexists.
  - repeat split.
    + by destruct hint, snap.
    + by destruct hint, snap.
    + by destruct hint, snap.
    + intros Hsome. right. destruct hint; [left; by eexists|by right].
    + intros [?|[[o Ho]|Hs]]; [done| |].
      * rewrite Ho. by eexists.
      * destruct hint; [by eexists|done].
Qed.

Example final_table_of_sample :
  knownAfterFetch sampleBase58 sampleConn sampleTx true
  = {[ "C1" := {| d_mint := Some "MintY"; d_owner := Some "OwnerA";
                  d_decimals := Some 2 |};
       "C2" := {| d_mint := Some "M"; d_owner := Some "O";
                  d_decimals := None |} ]}.
Proof. vm_compute. reflexivity. Qed.

(** X10. An address for which an instruction hints an owner is not among
    the addresses of the lookup, unless the balance snapshots report the
    sentinel string as its mint: a missing mint does not cause a lookup.
    Its entry is the same after the lookup as before. *)
Theorem hinted_address_not_fetched toBase58 conn parsedTx includeSolTransfers
    (a : addr) owner :
  buildTokenAccountMapFromInstructions parsedTx !! key a = Some owner →
  snapshotMint parsedTx (key a) ≠ Some UNKNOWN_MINT →
  ¬ (key a ∈ key <$> addressesOf parsedTx includeSolTransfers)
  ∧ knownAfterFetch toBase58 conn parsedTx includeSolTransfers !! key a
    = knownBeforeFetch parsedTx !! key a.
Proof.
  intros Hhint Hmint.
  assert (¬ (key a ∈ key <$> addressesOf parsedTx includeSolTransfers))
    as Hnot.
  { intros (a' & Hk & Hin)%list_elem_of_fmap.
    apply addressesOf_spec in Hin as [_ Hun].
    unfold unresolved in Hun. rewrite <-Hk in Hun.
    pose proof (knownBeforeFetch_mint parsedTx (key a)) as Hm.
    unfold knownBeforeFetch in Hun, Hm.
    rewrite unify_lookup, Hhint in Hun, Hm. simpl in Hun, Hm.
    destruct Hun as [?|Hs]; [done|]. congruence. }
  split; [done|]. unfold knownAfterFetch.
  by rewrite incorporate_lookup, decide_False.
Qed.

Lemma hinted_address_not_fetched_witness :
  ¬ (key (Some "C1") ∈ key <$> addressesOf sampleTx true)
  ∧ knownAfterFetch sampleBase58 sampleConn sampleTx true !! key (Some "C1")
    = knownBeforeFetch sampleTx !! key (Some "C1").
Proof.
  apply (hinted_address_not_fetched sampleBase58 sampleConn sampleTx true
           (Some "C1") "OwnerA").
  - vm_compute. reflexivity.
  - vm_compute. discriminate.
Defined.

(** ** The loop over the returned accounts *)

Lemma parseAccountInfos_frame toBase58 tokenAccounts accountInfos
    (n : nat) onChainCache (k : string) :
  (n ≤ length accountInfos)%nat →
  (∀ i, (i < n)%nat → key (mjoin (tokenAccounts !! i)) ≠ k) →
  foldl (storeAccountInfo toBase58 tokenAccounts accountInfos) onChainCache
    (seq 0 n) !! k
  = onChainCache !! k.
Proof.
  induction n as [|n IH]; intros Hn Hk; [done|].
  rewrite seq_S, foldl_app. cbn [foldl plus]. unfold storeAccountInfo at 1.
  destruct (accountInfos !! n).
  - rewrite lookup_insert_ne by (apply Hk; lia).
    apply IH; [lia|]. intros i Hi. apply Hk. lia.
  - apply IH; [lia|]. intros i Hi. apply Hk. lia.
Qed.

Lemma parseAccountInfos_written toBase58 tokenAccounts accountInfos
    (n i : nat) onChainCache :
  (i < n ≤ length accountInfos)%nat →
  is_Some (foldl (storeAccountInfo toBase58 tokenAccounts accountInfos)
             onChainCache (seq 0 n) !! key (mjoin (tokenAccounts !! i))).
Proof.
  induction n as [|n IH]; intros Hn; [lia|].
  rewrite seq_S, foldl_app. cbn [foldl plus]. unfold storeAccountInfo at 1.
  destruct (lookup_lt_is_Some_2 accountInfos n) as [x Hx]; [lia|].
  rewrite Hx.
  destruct (decide (key (mjoin (tokenAccounts !! n))
                    = key (mjoin (tokenAccounts !! i)))) as [Heq|Hne].
  - rewrite Heq, lookup_insert_eq. by eexists.
  - rewrite lookup_insert_ne by done.
    apply IH. assert (i ≠ n) by (intros ->; done). lia.
Qed.

(** X11. The loop over the returned accounts writes one cache entry per
    returned position, under the address at that position, and nothing
    else: an address at a position the answer does not reach keeps what the
    cache held (an empty answer changes nothing), and when the answer is
    longer than the list of addresses the surplus is stored under the key
    "undefined". *)
Theorem fetch_writes_returned_positions toBase58 tokenAccounts accountInfos
    onChainCache :
  let cache' :=
    parseAccountInfos toBase58 tokenAccounts accountInfos onChainCache in
  (∀ k : string,
     (∀ i, (i < length accountInfos)%nat →
           key (mjoin (tokenAccounts !! i)) ≠ k) →
     cache' !! k = onChainCache !! k)
  ∧ (∀ i, (i < length accountInfos)%nat →
          is_Some (cache' !! key (mjoin (tokenAccounts !! i))))
  ∧ ((length tokenAccounts < length accountInfos)%nat →
     is_Some (cache' !! "undefined")).
Proof.
  cbv zeta. unfold parseAccountInfos. split; [|split].
  - intros k Hk. by apply parseAccountInfos_frame.
  - intros i Hi. apply parseAccountInfos_written. lia.
  - intros Hlen.
    assert (mjoin (tokenAccounts !! length tokenAccounts) = None) as Hout.
    { by rewrite lookup_ge_None_2. }
    change "undefined" with (key None). rewrite <-Hout.
    apply parseAccountInfos_written. lia.
Qed.

Lemma fetch_writes_returned_positions_witness :
  parseAccountInfos sampleBase58 [Some "C1"; Some "C2"] [None]
    {[ "C2" := {| c_owner := Some "O"; c_mint := Some "M" |} ]} !! "C2"
  = ({[ "C2" := {| c_owner := Some "O"; c_mint := Some "M" |} ]}
       : gmap string Cached) !! "C2".
Proof.
  apply (fetch_writes_returned_positions sampleBase58
           [Some "C1"; Some "C2"] [None]).
  intros i Hi. assert (i = 0%nat) as -> by (simpl in Hi; lia). done.
Defined.

Example surplus_answer_goes_to_undefined :
  parseAccountInfos sampleBase58 [Some "C1"] [None; Some accountC2] ∅
  = {[ "C1" := {| c_owner := None; c_mint := None |};
       "undefined" := {| c_owner := Some "O"; c_mint := Some "M" |} ]}.
Proof. vm_compute. reflexivity. Qed.

(** ** The two rewriting passes *)

Lemma find_positive_spec (l : list Z) n :
  List.find (λ n, 0 <? n)%Z l = Some n → 0 < n.
Proof. intros [_ H%Z.ltb_lt]%List.find_some. done. Qed.

Lemma backfill_twice src dst t :
  decimalsBackfill src dst
    (mintBackfill src dst (decimalsBackfill src dst (mintBackfill src dst t)))
  = decimalsBackfill src dst (mintBackfill src dst t).
Proof.
  unfold mintBackfill, decimalsBackfill.
  pose proof (find_positive_spec (omap d_decimals [src; dst])) as Hpos.
  revert Hpos.
  generalize (List.find (λ n, 0 <? n)%Z (omap d_decimals [src; dst])).
  generalize (List.find (λ d, truthy (d_mint d)) [src; dst]).
  intros [[dm dow [k|]]|] [n|] Hpos.
  all: try (pose proof (Hpos n eq_refl)).
  all: destruct t as [f to m am dec rf rt]; simpl.
  all: repeat (case_bool_decide; simpl); simplify_eq/=; try done; try lia.
Qed.

Lemma fixMintDecimals_with tokenAccountData t :
  fixMintDecimals tokenAccountData t
  = decimalsBackfill
      (default noData (tokenAccountData !! key (t_rawFrom t)))
      (default noData (tokenAccountData !! key (t_rawTo t)))
      (mintBackfill
         (default noData (tokenAccountData !! key (t_rawFrom t)))
         (default noData (tokenAccountData !! key (t_rawTo t))) t).
Proof.
  unfold fixMintDecimals, mintBackfill, decimalsBackfill, copyMint.
  generalize (default noData (tokenAccountData !! key (t_rawFrom t))).
  generalize (default noData (tokenAccountData !! key (t_rawTo t))).
  intros [[[|? ?]|] od [nd|]] [[[|? ?]|] os [ns|]].
  all: destruct t as [f to m am dec rf rt]; simpl.
  all: repeat (case_bool_decide; simpl);
    repeat (case_match; simpl); simplify_eq/=; try done; try lia.
Qed.

(** X12. Owner rewriting and backfill can each be repeated without further
    effect, and they can be applied in either order: the first reads and
    writes the displayed endpoints only, the second mint and decimals only,
    and both look the table up under the raw addresses, which neither
    changes. *)
Theorem passes_idempotent_and_commute tokenAccountData t :
  rewriteOwners tokenAccountData (rewriteOwners tokenAccountData t)
  = rewriteOwners tokenAccountData t
  ∧ fixMintDecimals tokenAccountData (fixMintDecimals tokenAccountData t)
    = fixMintDecimals tokenAccountData t
  ∧ rewriteOwners tokenAccountData (fixMintDecimals tokenAccountData t)
    = fixMintDecimals tokenAccountData (rewriteOwners tokenAccountData t).
Proof.
  split; [|split].
  - unfold rewriteOwners at 1.
    destruct (rewriteOwners_frame tokenAccountData t) as (-> & -> & _).
    unfold rewriteOwners. destruct t as [f to m am dec rf rt]; simpl.
    by destruct (truthy (tokenAccountData !! key rf ≫= d_owner)),
      (truthy (tokenAccountData !! key rt ≫= d_owner)).
  - rewrite (fixMintDecimals_with _ (fixMintDecimals _ _)).
    destruct (fixMintDecimals_frame tokenAccountData t) as (-> & -> & _).
    rewrite (fixMintDecimals_with _ t). apply backfill_twice.
  - rewrite !fixMintDecimals_with.
    destruct (rewriteOwners_frame tokenAccountData t) as (-> & -> & _).
    set (src := default noData (tokenAccountData !! key (t_rawFrom t))).
    set (dst := default noData (tokenAccountData !! key (t_rawTo t))).
    clearbody src dst.
    assert (∀ x, t_rawFrom (decimalsBackfill src dst (mintBackfill src dst x))
                 = t_rawFrom x
                 ∧ t_rawTo (decimalsBackfill src dst (mintBackfill src dst x))
                   = t_rawTo x) as Hraw.
    { intros x. unfold decimalsBackfill, mintBackfill.
      by repeat (case_match; simpl). }
    unfold rewriteOwners. destruct (Hraw t) as [-> ->]. clear Hraw.
    generalize (tokenAccountData !! key (t_rawFrom t) ≫= d_owner)
      (tokenAccountData !! key (t_rawTo t) ≫= d_owner).
    intros F T. unfold decimalsBackfill, mintBackfill.
    generalize (List.find (λ n, 0 <? n)%Z (omap d_decimals [src; dst])).
    generalize (List.find (λ d, truthy (d_mint d)) [src; dst]).
    intros [[dm dow [k|]]|] [n|].
    all: destruct t as [f to m am dec rf rt]; simpl.
    all: destruct (truthy F), (truthy T); simpl.
    all: repeat (case_bool_decide; simpl); simplify_eq/=; try done.
Qed.

(** ** What the tables may hold *)

(** X13. No owner or mint stored in any table is the empty string: not in
    the hint map, not in the table of the balance snapshots, not in the
    table before the lookup nor in the table after it.  No key of the first
    three is the empty string either. *)
Theorem stored_strings_nonempty toBase58 conn parsedTx includeSolTransfers :
  map_Forall (λ k o, k ≠ "" ∧ o ≠ "")
    (buildTokenAccountMapFromInstructions parsedTx)
  ∧ map_Forall (λ k e, k ≠ "" ∧ d_owner e ≠ Some "" ∧ d_mint e ≠ Some "")
      (buildTokenAccountMapFromBalances parsedTx)
  ∧ map_Forall (λ k e, k ≠ "" ∧ d_owner e ≠ Some "" ∧ d_mint e ≠ Some "")
      (knownBeforeFetch parsedTx)
  ∧ map_Forall (λ _ e, d_owner e ≠ Some "" ∧ d_mint e ≠ Some "")
      (knownAfterFetch toBase58 conn parsedTx includeSolTransfers).
Proof.
  destruct (snapshots_given parsedTx) as [Hsf Hsk].
  destruct (knownBeforeFetch_given parsedTx) as [Hbf Hbk].
  split; [apply hints_given|]. split; [|split].
  - intros k e He. split; [by apply (Hsk k e)|by apply (Hsf k e)].
  - intros k e He. split; [by apply (Hbk k e)|by apply (Hbf k e)].
  - apply knownAfterFetch_given.
Qed.

(** ** The order of the addresses *)

Lemma firstOccurrences_filter (Q : addr → Prop) `{∀ a, Decision (Q a)} l :
  firstOccurrences (filter Q l) = filter Q (firstOccurrences l).
Proof.
  induction l as [|a l IH]; [done|].
  destruct (decide (Q a)) as [Ha|Ha].
  - rewrite filter_cons_True by done. cbn [firstOccurrences].
    rewrite filter_cons_True by done. f_equal.
    rewrite IH, !list_filter_filter. apply list_filter_iff. tauto.
  - rewrite filter_cons_False by done. cbn [firstOccurrences].
    rewrite filter_cons_False by done.
    rewrite IH, list_filter_filter. apply list_filter_iff.
    intros b. split; [|tauto]. intros Hb. split; [done|]. by intros ->.
Qed.

Lemma foldl_noteAddress_order tokenAccountData l acc :
  foldl (noteAddress tokenAccountData) acc l
  = (acc ++ firstOccurrences
              (filter (λ a, needsFetch tokenAccountData a = true ∧ a ∉ acc)
                 l))%list.
Proof.
  revert acc. induction l as [|x l IH]; intros acc; cbn [foldl].
  { by rewrite app_nil_r. }
  rewrite IH. unfold noteAddress, Set_add.
  destruct (needsFetch tokenAccountData x) eqn:Hx.
  - case_decide as Hin.
    + rewrite (filter_cons_False _ x) by (intros [_ ?]; done). done.
    + rewrite (filter_cons_True _ x) by done. cbn [firstOccurrences].
      rewrite <-app_assoc. cbn [app]. do 2 f_equal.
      rewrite <-firstOccurrences_filter, list_filter_filter.
      f_equal. apply list_filter_iff. intros b.
      rewrite not_elem_of_app, list_elem_of_singleton. tauto.
  - rewrite (filter_cons_False _ x) by (intros [? _]; congruence). done.
Qed.

(** X14. The addresses of the lookup are listed in the order in which they
    first occur among the endpoints of the raw transfers, each transfer
    contributing its source before its destination: the list is that of the
    endpoints that need fetching, cut down to first occurrences. *)
Theorem addresses_in_order_of_appearance parsedTx includeSolTransfers :
  addressesOf parsedTx includeSolTransfers
  = firstOccurrences
      (filter (λ a, needsFetch (knownBeforeFetch parsedTx) a = true)
         (endpoints (gatherTransfers parsedTx includeSolTransfers))).
Proof.
  unfold addressesOf. rewrite leftoverAddresses_endpoints.
  rewrite foldl_noteAddress_order. cbn [app]. f_equal.
  apply list_filter_iff. intros a. split; [tauto|].
  intros Ha. split; [done|]. by intros ?%elem_of_nil.
Qed.

Example addresses_of_bare_sample :
  addressesOf bareTx true = [Some addressA; Some addressB].
Proof. vm_compute. reflexivity. Qed.

(** ** A transaction without transfers *)

(** X15. When no instruction of the transaction yields an event, the run
    issues no request beyond the one for the transaction, whatever the
    hints and the balance snapshots say, and the only value it returns is
    the empty list. *)
Theorem no_transfers_no_lookup `{JSNumbers} isPublicKey toBase58 conn
    signature includeSolTransfers parsedTx :
  getParsedTransaction conn signature = Some (Some parsedTx) →
  (∀ ix, ix ∈ allInstructions parsedTx →
         parseInstructionTransfers ix includeSolTransfers = []) →
  let run :=
    exec conn (parseTransfersFromSignature isPublicKey toBase58 signature
                 includeSolTransfers) in
  run.2 = [ReqParsedTransaction signature]
  ∧ ∀ out, run.1 = Some out → out = [].
Proof.
  intros Htx Hnone. cbv zeta.
  rewrite exec_parseTransfersFromSignature, Htx.
  destruct (meta parsedTx); [|split; [done|by intros out [= <-]]]. cbv zeta.
  assert (gatherTransfers parsedTx includeSolTransfers = []) as Hg.
  { unfold gatherTransfers.
    induction (allInstructions parsedTx) as [|ix l IH]; [done|].
    rewrite bind_cons, Hnone by apply list_elem_of_here.
    apply IH. intros ix' Hin. apply Hnone. by apply list_elem_of_further. }
  unfold addressesOf. rewrite Hg. cbn.
  split; [done|]. by intros out [= <-].
Qed.

Lemma no_transfers_no_lookup_witness :
  let run :=
    exec quietConn
      (parseTransfersFromSignature (H := sampleNumbers) sampleIsPublicKey
         sampleBase58 "any" true) in
  run.2 = [ReqParsedTransaction "any"]
  ∧ ∀ out, run.1 = Some out → out = [].
Proof.
  apply (no_transfers_no_lookup (H := sampleNumbers) sampleIsPublicKey
           sampleBase58 quietConn "any" true quietTx).
  - reflexivity.
  - intros ix Hin.
    assert (ix = hintIx) as ->
      by (by apply list_elem_of_singleton in Hin).
    reflexivity.
Defined.
